(** * HN Afterglow: the client-side data layer of the front page

    A shallow embedding of the fetching, pagination, comment-tree and
    session-cache code of the Hacker News client, and the properties its
    specification states about them.

    Conventions of the embedding.

    - An [async] function is a function into [Async A]: the state in which
      its promise settles together with the [fetch] calls it made, in
      program order.  Upstream is a parameter ([Upstream]): what the API
      answers to each request; it and the abort signal are fixed for the
      duration of one awaited call, so a cancellation while a call is in
      flight is a call made with an aborted signal.  Every request settles
      (a response or a transport failure); [Pending] is only produced by a
      loop that ran out of fuel, and the theorems show that this does not
      happen.
    - Array indices, lengths and the recursion depth are [nat]; item ids and
      times (milliseconds) are [Z].
    - Optional fields ([kids?: number[]]) are [option]s; JavaScript
      truthiness of an optional boolean or string is [truthy] / [nonEmpty].
    - [Date.now()] is an explicit argument [now]. *)

From Stdlib Require Import ZArith Bool Ascii String Lia.
From stdpp Require Import gmap strings list fin_maps pretty.

Local Open Scope Z_scope.
Local Open Scope nat_scope.

(** ** Constants *)

Definition MAX_FRONT_PAGE_STORIES : nat := 30.
Definition FETCH_CHUNK_SIZE : nat := 15.
Definition MAX_COMMENT_DEPTH : nat := 5.
Definition MAX_CHILDREN_PER_LEVEL : nat := 10.
Definition PAGE_SIZE : nat := 30.
Definition FEED_CACHE_TTL_MS : Z := 60000%Z.
Definition USER_CACHE_TTL_MS : Z := (5 * 60000)%Z.
Definition POST_CACHE_TTL_MS : Z := (2 * 60000)%Z.

(** ** Data model *)

(** [type Section = "top" | "new" | "past" | "comments" | "ask" | "show" |
    "jobs" | "submit"] *)
Inductive FeedSection : Set :=
  | STop | SNew | SPast | SComments | SAsk | SShow | SJobs | SSubmit.

#[global] Instance FeedSection_eq_dec : EqDecision FeedSection.
Proof. solve_decision. Defined.

Definition FeedSection_to_nat (s : FeedSection) : nat :=
  match s with
  | STop => 0 | SNew => 1 | SPast => 2 | SComments => 3
  | SAsk => 4 | SShow => 5 | SJobs => 6 | SSubmit => 7
  end.

Definition FeedSection_of_nat (n : nat) : FeedSection :=
  match n with
  | 0 => STop | 1 => SNew | 2 => SPast | 3 => SComments
  | 4 => SAsk | 5 => SShow | 6 => SJobs | _ => SSubmit
  end.

#[global] Program Instance FeedSection_countable : Countable FeedSection :=
  inj_countable' FeedSection_to_nat FeedSection_of_nat _.
Next Obligation. by intros []. Qed.

(** The [type] tag of an item. *)
Inductive ItemType : Set := TStory | TComment | TJob | TPoll | TPollopt.

#[global] Instance ItemType_eq_dec : EqDecision ItemType.
Proof. solve_decision. Defined.

(** [type HNItem]; every field but [id] is optional. *)
Record HNItem : Type := mkItem {
  item_id : Z;
  item_type : option ItemType;
  item_by : option string;
  item_time : option Z;
  item_title : option string;
  item_text : option string;
  item_url : option string;
  item_score : option Z;
  item_descendants : option Z;
  item_parent : option Z;
  item_kids : option (list Z);
  item_dead : option bool;
  item_deleted : option bool
}.

(** [type HNCommentNode = HNItem & { children: HNCommentNode[] }] *)
#[warnings="-register-all"]
Inductive HNCommentNode : Type :=
  Node { node_item : HNItem; children : list HNCommentNode }.

(** [type HNUser] *)
Record HNUser : Type := mkUser {
  user_id : string;
  user_created : Z;
  user_about : option string;
  user_karma : Z;
  user_submitted : option (list Z)
}.

Inductive LoadState : Set := Idle | Loading | Ready | Failed.

(** [type TimedValue<T> = { value: T; createdAt: number }] *)
Record TimedValue (T : Type) : Type := mkTimed { value : T; createdAt : Z }.
Arguments mkTimed {T} _ _.
Arguments value {T} _.
Arguments createdAt {T} _.

Record FeedSnapshot : Type := mkFeedSnapshot {
  snap_ids : list Z;
  snap_items : list HNItem;
  snap_nextFetchIndex : nat
}.

Record PostSnapshot : Type := mkPostSnapshot {
  post_item : HNItem;
  post_comments : list HNCommentNode
}.

(** JavaScript truthiness of an optional boolean ([item.dead]) and of an
    optional string ([!!item.text]). *)
Definition truthy (b : option bool) : bool :=
  match b with Some true => true | _ => false end.

Definition nonEmpty (s : option string) : bool :=
  match s with
  | Some EmptyString => false
  | Some _ => true
  | None => false
  end.

(** [item.type === t] *)
Definition type_is (item : HNItem) (t : ItemType) : bool :=
  bool_decide (item_type item = Some t).

(** [ids.slice(s, e)] for array indices [s] and [e]. *)
Definition slice {A} (l : list A) (s e : nat) : list A := take (e - s) (drop s l).

(** ** Upstream and promises *)

(** The values an upstream list can hold as far as [typeof id === "number"]
    can tell them apart. *)
Inductive JsonValue : Type :=
  | JNull
  | JBool (b : bool)
  | JNumber (n : Z)
  | JString (s : string).

(** The body of [/item/<id>.json] as [fetchItemById] inspects it with
    [!item || typeof item.id !== "number"]: [null] (or another falsy value),
    a value whose [id] is not a number, or an object with a numeric [id]. *)
Inductive ItemPayload : Type :=
  | PayloadNull
  | PayloadNoNumericId
  | PayloadItem (item : HNItem).

(** The body of [/updates.json]: [{ items?: number[] }]. *)
Record UpdatesPayload : Type := mkUpdates { updates_items : option (list JsonValue) }.

(** A [Response]: its status and its body, [None] when the body is not JSON
    (then [response.json()] rejects). *)
Record Response (T : Type) : Type := mkResponse { status : Z; body : option T }.
Arguments mkResponse {T} _ _.
Arguments status {T} _.
Arguments body {T} _.

(** [response.ok]: the status is in the range 200-299. *)
Definition ok {T} (r : Response T) : bool :=
  ((200 <=? status r) && (status r <=? 299))%Z.

(** How a request that was sent settles. *)
Inductive FetchOutcome (T : Type) : Type :=
  | NetworkFailure
  | Responded (r : Response T).
Arguments NetworkFailure {T}.
Arguments Responded {T} _.

(** What upstream answers, per endpoint. *)
Record Upstream : Type := mkUpstream {
  up_item : Z -> FetchOutcome ItemPayload;
  up_list : string -> FetchOutcome (list JsonValue);
  up_updates : FetchOutcome UpdatesPayload
}.

(** The URLs the client requests, relative to [API_BASE]. *)
Inductive Url : Type :=
  | ItemUrl (id : Z)            (* /item/<id>.json *)
  | ListUrl (endpoint : string) (* /<endpoint>.json *)
  | UpdatesUrl.                 (* /updates.json *)

(** A URL together with what upstream answers to it. *)
Record Endpoint (T : Type) : Type := mkEndpoint { url : Url; outcome : FetchOutcome T }.
Arguments mkEndpoint {T} _ _.
Arguments url {T} _.
Arguments outcome {T} _.

Definition itemEndpoint (net : Upstream) (id : Z) : Endpoint ItemPayload :=
  mkEndpoint (ItemUrl id) (up_item net id).
Definition listEndpoint (net : Upstream) (endpoint : string) : Endpoint (list JsonValue) :=
  mkEndpoint (ListUrl endpoint) (up_list net endpoint).
Definition updatesEndpoint (net : Upstream) : Endpoint UpdatesPayload :=
  mkEndpoint UpdatesUrl (up_updates net).

Record AbortSignal : Set := mkSignal { aborted : bool }.

(** What a promise rejects with. *)
Inductive Error : Type :=
  | AbortError                  (* the signal was aborted *)
  | NetworkError                (* fetch failed: no response *)
  | SyntaxError                 (* response.json() on a body that is not JSON *)
  | RequestFailed (status : Z)  (* new Error(`Request failed (${status})`) *)
  | ErrorMessage (msg : string) (* new Error(msg) *).

Inductive Promise (A : Type) : Type :=
  | Resolved (a : A)
  | Rejected (e : Error)
  | Pending.
Arguments Resolved {A} _.
Arguments Rejected {A} _.
Arguments Pending {A}.

(** An asynchronous computation: how its promise settles, and the [fetch]
    calls it made. *)
Definition Async (A : Type) : Type := (Promise A * list Url)%type.

Definition result {A} (m : Async A) : Promise A := fst m.
Definition calls {A} (m : Async A) : list Url := snd m.

Definition ret {A} (a : A) : Async A := (Resolved a, []).
Definition throw {A} (e : Error) : Async A := (Rejected e, []).
Definition pending {A} : Async A := (Pending, []).

(** [await x := m in k] is [const x = await m; k]. *)
Definition bind {A B} (m : Async A) (k : A -> Async B) : Async B :=
  match m with
  | (Resolved a, l) => let (p, l') := k a in (p, l ++ l')
  | (Rejected e, l) => (Rejected e, l)
  | (Pending, l) => (Pending, l)
  end.

Notation "'await' x := m 'in' k" := (bind m (fun x => k))
  (at level 10, x name, m at level 100, k at level 200).

(** [m.catch(handler)] *)
Definition catch {A} (m : Async A) (handler : Error -> A) : Async A :=
  match m with
  | (Rejected e, l) => (Resolved (handler e), l)
  | _ => m
  end.

(** How [Promise.all] settles: rejected as soon as one member is, resolved
    with all values in the order of the array when all are. *)
Fixpoint settleAll {A} (ps : list (Promise A)) : Promise (list A) :=
  match ps with
  | [] => Resolved []
  | p :: ps' =>
      match p, settleAll ps' with
      | Rejected e, _ => Rejected e
      | _, Rejected e => Rejected e
      | Pending, _ => Pending
      | _, Pending => Pending
      | Resolved a, Resolved l => Resolved (a :: l)
      end
  end.

(** [Promise.all(ms)]: every member has been started. *)
Definition Promise_all {A} (ms : list (Async A)) : Async (list A) :=
  (settleAll (result <$> ms), concat (calls <$> ms)).

(** [fetch(url, { signal })] *)
Definition fetch {T} (e : Endpoint T) (signal : AbortSignal) : Async (Response T) :=
  if aborted signal then (Rejected AbortError, [url e])
  else match outcome e with
       | NetworkFailure => (Rejected NetworkError, [url e])
       | Responded r => (Resolved r, [url e])
       end.

(** [response.json()] *)
Definition json {T} (response : Response T) : Async T :=
  match body response with
  | Some v => ret v
  | None => throw SyntaxError
  end.

Definition fetchJson {T} (e : Endpoint T) (signal : AbortSignal) : Async T :=
  await response := fetch e signal in
  if negb (ok response) then throw (RequestFailed (status response))
  else json response.

Definition fetchItemById (net : Upstream) (id : Z) (signal : AbortSignal)
  : Async (option HNItem) :=
  await item := fetchJson (itemEndpoint net id) signal in
  match item with
  | PayloadItem item => ret (Some item)
  | PayloadNull | PayloadNoNumericId => ret None
  end.

(** [fetchItemById(id, signal).catch(() => null)], as the batch fetch and the
    tree builder call it. *)
Definition fetchItemOrNull (net : Upstream) (signal : AbortSignal) (id : Z)
  : Async (option HNItem) :=
  catch (fetchItemById net id signal) (fun _ => None).

(** ** Batch fetch *)

(** [item.deleted || item.dead] *)
Definition suppressed (item : HNItem) : bool :=
  truthy (item_deleted item) || truthy (item_dead item).

(** The inner [for (const item of results)] loop of [fetchItemsByIds]:
    [if (!item || item.deleted || item.dead) continue; items.push(item);
     if (items.length === maxItems) break;] *)
Fixpoint pushLive (results : list (option HNItem)) (maxItems : nat)
    (items : list HNItem) : list HNItem :=
  match results with
  | [] => items
  | None :: rest => pushLive rest maxItems items
  | Some item :: rest =>
      if suppressed item then pushLive rest maxItems items
      else
        let items := items ++ [item] in
        if length items =? maxItems then items
        else pushLive rest maxItems items
  end.

(** The outer [for (let startIndex = 0; ...; startIndex += FETCH_CHUNK_SIZE)]
    loop of [fetchItemsByIds]. *)
Fixpoint fetchItemsByIds_loop (fuel : nat) (net : Upstream) (ids : list Z)
    (signal : AbortSignal) (maxItems : nat) (startIndex : nat)
    (items : list HNItem) : Async (list HNItem) :=
  match fuel with
  | 0 => pending
  | S fuel =>
      if (startIndex <? length ids) && (length items <? maxItems) then
        let chunk := slice ids startIndex (startIndex + FETCH_CHUNK_SIZE) in
        await results := Promise_all (fetchItemOrNull net signal <$> chunk) in
        let items := pushLive results maxItems items in
        fetchItemsByIds_loop fuel net ids signal maxItems
          (startIndex + FETCH_CHUNK_SIZE) items
      else ret items
  end.

(** [fetchItemsByIds(ids, signal, maxItems = ids.length)] *)
Definition fetchItemsByIds (net : Upstream) (ids : list Z) (signal : AbortSignal)
    (maxItems : option nat) : Async (list HNItem) :=
  fetchItemsByIds_loop (S (length ids)) net ids signal
    (default (length ids) maxItems) 0 [].

(** ** Feed pages *)

Definition shouldRenderInSection (item : HNItem) (section : FeedSection) : bool :=
  if truthy (item_dead item) || truthy (item_deleted item) then false
  else match section with
       | SJobs => type_is item TJob
       | SComments => type_is item TComment && nonEmpty (item_text item)
       | _ => type_is item TStory || type_is item TPoll
       end.

(** The inner [for (const item of fetchedItems)] loop of [fetchFeedPage]. *)
Fixpoint pushRendered (fetchedItems : list HNItem) (section : FeedSection)
    (pageItems : list HNItem) : list HNItem :=
  match fetchedItems with
  | [] => pageItems
  | item :: rest =>
      if negb (shouldRenderInSection item section)
      then pushRendered rest section pageItems
      else
        let pageItems := pageItems ++ [item] in
        if length pageItems =? PAGE_SIZE then pageItems
        else pushRendered rest section pageItems
  end.

(** [{ items: HNItem[]; nextFetchIndex: number }] *)
Record FeedPage : Type := mkPage {
  page_items : list HNItem;
  page_nextFetchIndex : nat
}.

(** The [while] loop of [fetchFeedPage]. *)
Fixpoint fetchFeedPage_loop (fuel : nat) (net : Upstream) (ids : list Z)
    (section : FeedSection) (signal : AbortSignal) (cursor : nat)
    (pageItems : list HNItem) : Async FeedPage :=
  match fuel with
  | 0 => pending
  | S fuel =>
      if (cursor <? length ids) && (length pageItems <? PAGE_SIZE) then
        let chunk := slice ids cursor (cursor + PAGE_SIZE) in
        if length chunk =? 0 then ret (mkPage pageItems cursor)
        else
          let cursor := cursor + PAGE_SIZE in
          await fetchedItems := fetchItemsByIds net chunk signal (Some (length chunk)) in
          let pageItems := pushRendered fetchedItems section pageItems in
          fetchFeedPage_loop fuel net ids section signal cursor pageItems
      else ret (mkPage pageItems cursor)
  end.

Definition fetchFeedPage (net : Upstream) (ids : list Z) (section : FeedSection)
    (startIndex : nat) (signal : AbortSignal) : Async FeedPage :=
  fetchFeedPage_loop (S (length ids)) net ids section signal startIndex [].

(** ** Id-list resolver *)

(** [.filter((id): id is number => typeof id === "number")] *)
Definition isNumber (v : JsonValue) : option Z :=
  match v with JNumber n => Some n | _ => None end.

Definition numericIds (entries : list JsonValue) : list Z := omap isNumber entries.

(** [const endpoint = section === "new" ? "newstories" : ... : "topstories"] *)
Definition fetchStoryIds_endpoint (section : FeedSection) : string :=
  match section with
  | SNew => "newstories"
  | SAsk => "askstories"
  | SShow => "showstories"
  | SJobs => "jobstories"
  | _ => "topstories"
  end.

Definition fetchStoryIds (net : Upstream) (section : FeedSection)
    (signal : AbortSignal) : Async (list Z) :=
  match section with
  | SSubmit => ret []
  | SComments =>
      await updates := fetchJson (updatesEndpoint net) signal in
      ret (numericIds (default [] (updates_items updates)))
  | _ =>
      let endpoint := fetchStoryIds_endpoint section in
      await storyIds := fetchJson (listEndpoint net endpoint) signal in
      ret (numericIds storyIds)
  end.

(** ** Comment tree *)

(** The filter of [buildCommentTree]:
    [!!item && item.type === "comment" && !item.dead && !item.deleted]. *)
Definition isValidComment (item : option HNItem) : option HNItem :=
  match item with
  | Some it =>
      if type_is it TComment && negb (truthy (item_dead it))
         && negb (truthy (item_deleted it))
      then Some it else None
  | None => None
  end.

(** [buildCommentTree(ids, signal, depth)] with the recursion budget made
    explicit: [fuel] bounds the nesting of calls, and a call without budget
    stays [Pending]. *)
Fixpoint buildCommentTree_fuel (fuel : nat) (net : Upstream) (ids : list Z)
    (signal : AbortSignal) (depth : nat) : Async (list HNCommentNode) :=
  match fuel with
  | 0 => pending
  | S fuel =>
      if (MAX_COMMENT_DEPTH <=? depth) || (length ids =? 0) then ret []
      else
        let limitedIds := slice ids 0 MAX_CHILDREN_PER_LEVEL in
        await results := Promise_all (fetchItemOrNull net signal <$> limitedIds) in
        let validComments := omap isValidComment results in
        await nodes :=
          Promise_all
            ((fun item =>
                await children :=
                  buildCommentTree_fuel fuel net
                    (default [] (item_kids item)) signal (depth + 1) in
                ret (Node item children))
             <$> validComments) in
        ret nodes
  end.

(** [buildCommentTree(ids, signal, depth = 0)] *)
Definition buildCommentTree (net : Upstream) (ids : list Z) (signal : AbortSignal)
    (depth : nat) : Async (list HNCommentNode) :=
  buildCommentTree_fuel (S MAX_COMMENT_DEPTH) net ids signal depth.

(** ** Session cache *)

(** [readTimedCache(cache, key, maxAgeMs)] at time [now]: the value read and
    the cache after the read. *)
Definition readTimedCache {K T} `{Countable K} (cache : gmap K (TimedValue T))
    (key : K) (maxAgeMs : Z) (now : Z) : option T * gmap K (TimedValue T) :=
  match cache !! key with
  | None => (None, cache)
  | Some entry =>
      if (maxAgeMs <? now - createdAt entry)%Z then (None, delete key cache)
      else (Some (value entry), cache)
  end.

(** [writeTimedCache(cache, key, value)] at time [now]. *)
Definition writeTimedCache {K T} `{Countable K} (cache : gmap K (TimedValue T))
    (key : K) (v : T) (now : Z) : gmap K (TimedValue T) :=
  <[key := mkTimed v now]> cache.

(** The three caches of the module. *)
Record Caches : Type := mkCaches {
  feedCache : gmap FeedSection (TimedValue FeedSnapshot);
  userCache : gmap string (TimedValue HNUser);
  postCache : gmap Z (TimedValue PostSnapshot)
}.

(** [userId.toLowerCase()], on the ASCII letters a handle is made of. *)
Definition lowerAscii (c : ascii) : ascii :=
  let n := nat_of_ascii c in
  if (65 <=? n) && (n <=? 90) then ascii_of_nat (n + 32) else c.

Fixpoint toLowerCase (s : string) : string :=
  match s with
  | EmptyString => EmptyString
  | String c s' => String (lowerAscii c) (toLowerCase s')
  end.

(** ** The views

    A view's operation runs in segments separated by its [await]s.  The
    scheduler is made explicit by two traces indexed by time points: point
    [2 * k] is from the start of the [k]-th segment to the end of the call it
    awaits, point [2 * k + 1] is when the function resumes after that call.
    [sig p] is the state of the operation's abort signal at point [p]
    (aborting the controller makes it [true] from then on) and [clock p] is
    [Date.now()] there. *)

(** The state of [FeedView]; [errorMessage] holds the error whose message is
    shown, [None] for the empty string. *)
Record FeedViewState : Type := mkFeedView {
  fv_ids : list Z;
  fv_items : list HNItem;
  fv_loadState : LoadState;
  fv_errorMessage : option Error;
  fv_nextFetchIndex : nat
}.

(** [const startIndex = section === "past" ? MAX_FRONT_PAGE_STORIES : 0] *)
Definition loadFeed_startIndex (section : FeedSection) : nat :=
  match section with SPast => MAX_FRONT_PAGE_STORIES | _ => 0 end.

(** The [catch] block of [loadFeed], resumed at point [p]. *)
Definition loadFeed_catch (sig : nat -> AbortSignal) (p : nat) (error : Error)
    (st : FeedViewState) : FeedViewState :=
  if aborted (sig p) then st
  else mkFeedView (fv_ids st) [] Failed (Some error) (fv_nextFetchIndex st).

(** [loadFeed(forceFresh)] of [FeedView] for [section]: the view state and
    the feed cache when the operation has ended. *)
Definition loadFeed (net : Upstream) (section : FeedSection) (forceFresh : bool)
    (sig : nat -> AbortSignal) (clock : nat -> Z)
    (st : FeedViewState) (cache : gmap FeedSection (TimedValue FeedSnapshot))
  : FeedViewState * gmap FeedSection (TimedValue FeedSnapshot) :=
  let st := mkFeedView (fv_ids st) (fv_items st) (fv_loadState st) None
              (fv_nextFetchIndex st) in
  match section with
  | SSubmit => (mkFeedView [] [] Ready None 0, cache)
  | _ =>
      let (cachedSnapshot, cache) :=
        if negb forceFresh
        then readTimedCache cache section FEED_CACHE_TTL_MS (clock 0)
        else (None, cache) in
      match cachedSnapshot with
      | Some snap =>
          (mkFeedView (snap_ids snap) (snap_items snap) Ready None
             (snap_nextFetchIndex snap), cache)
      | None =>
          let st := mkFeedView [] [] Loading None (fv_nextFetchIndex st) in
          match result (fetchStoryIds net section (sig 0)) with
          | Resolved allIds =>
              if aborted (sig 1) then (st, cache)
              else
                let startIndex := loadFeed_startIndex section in
                match result (fetchFeedPage net allIds section startIndex (sig 2)) with
                | Resolved firstPage =>
                    if aborted (sig 3) then (st, cache)
                    else
                      (mkFeedView allIds (page_items firstPage) Ready None
                         (page_nextFetchIndex firstPage),
                       writeTimedCache cache section
                         (mkFeedSnapshot allIds (page_items firstPage)
                            (page_nextFetchIndex firstPage))
                         (clock 3))
                | Rejected error => (loadFeed_catch sig 3 error st, cache)
                | Pending => (st, cache)
                end
          | Rejected error => (loadFeed_catch sig 1 error st, cache)
          | Pending => (st, cache)
          end
      end
  end.

(** The merge loop of [handleLoadMore]:
    [if (seen.has(item.id)) continue; seen.add(item.id); ...;
     mergedItems.push(item);] *)
Fixpoint mergePage (pageItems : list HNItem) (seen : gset Z)
    (mergedItems : list HNItem) : list HNItem :=
  match pageItems with
  | [] => mergedItems
  | item :: rest =>
      if bool_decide (item_id item ∈ seen) then mergePage rest seen mergedItems
      else mergePage rest ({[item_id item]} ∪ seen) (mergedItems ++ [item])
  end.

(** [handleLoadMore()] of [FeedView]; [loadingMore] is the state hook that
    guards it against re-entry. *)
Definition handleLoadMore (net : Upstream) (section : FeedSection) (loadingMore : bool)
    (sig : nat -> AbortSignal) (clock : nat -> Z)
    (st : FeedViewState) (cache : gmap FeedSection (TimedValue FeedSnapshot))
  : FeedViewState * gmap FeedSection (TimedValue FeedSnapshot) :=
  if loadingMore || (length (fv_ids st) =? 0)
     || (length (fv_ids st) <=? fv_nextFetchIndex st)
  then (st, cache)
  else
    match result (fetchFeedPage net (fv_ids st) section (fv_nextFetchIndex st) (sig 0)) with
    | Resolved nextPage =>
        if aborted (sig 1) then (st, cache)
        else
          let seen := list_to_set (item_id <$> fv_items st) in
          let mergedItems := mergePage (page_items nextPage) seen (fv_items st) in
          (mkFeedView (fv_ids st) mergedItems (fv_loadState st) (fv_errorMessage st)
             (page_nextFetchIndex nextPage),
           writeTimedCache cache section
             (mkFeedSnapshot (fv_ids st) mergedItems (page_nextFetchIndex nextPage))
             (clock 1))
    | Rejected _ | Pending => (st, cache)
    end.

(** [const cacheKey = userId.toLowerCase()] and the cache read of the first
    render of [UserView]. *)
Definition UserView_cacheKey (userId : string) : string := toLowerCase userId.

Definition UserView_mount (userId : string) (now : Z)
    (cache : gmap string (TimedValue HNUser))
  : option HNUser * gmap string (TimedValue HNUser) :=
  readTimedCache cache (UserView_cacheKey userId) USER_CACHE_TTL_MS now.

(** The state of [PostView]. *)
Record PostViewState : Type := mkPostView {
  pv_item : option HNItem;
  pv_comments : list HNCommentNode;
  pv_loadState : LoadState;
  pv_errorMessage : option Error
}.

(** The first render of [PostView]: [cachedPost] is read and the state
    hooks are initialised from it. *)
Definition PostView_mount (postId : Z) (now : Z)
    (cache : gmap Z (TimedValue PostSnapshot))
  : option PostSnapshot * PostViewState * gmap Z (TimedValue PostSnapshot) :=
  let (cachedPost, cache) := readTimedCache cache postId POST_CACHE_TTL_MS now in
  (cachedPost,
   mkPostView (post_item <$> cachedPost)
     (default [] (post_comments <$> cachedPost))
     (match cachedPost with Some _ => Ready | None => Loading end) None,
   cache).

(** The [.catch] handler of the effect of [PostView], run at point [p]. *)
Definition PostView_catch (sig : nat -> AbortSignal) (p : nat) (error : Error)
    (st : PostViewState) : PostViewState :=
  if aborted (sig p) then st
  else mkPostView None [] Failed (Some error).

(** The effect of [PostView]: the view state and the post cache when the
    operation started by the effect has ended. *)
Definition PostView_effect (net : Upstream) (postId : Z)
    (cachedPost : option PostSnapshot)
    (sig : nat -> AbortSignal) (clock : nat -> Z)
    (st : PostViewState) (cache : gmap Z (TimedValue PostSnapshot))
  : PostViewState * gmap Z (TimedValue PostSnapshot) :=
  match cachedPost with
  | Some _ => (st, cache)
  | None =>
      match result (fetchItemById net postId (sig 0)) with
      | Resolved (Some nextItem) =>
          let st := mkPostView (Some nextItem) (pv_comments st) (pv_loadState st)
                      (pv_errorMessage st) in
          match result (buildCommentTree net (default [] (item_kids nextItem))
                          (sig 2) 0) with
          | Resolved nextComments =>
              (mkPostView (pv_item st) nextComments Ready (pv_errorMessage st),
               writeTimedCache cache postId
                 (mkPostSnapshot nextItem nextComments) (clock 3))
          | Rejected error => (PostView_catch sig 3 error st, cache)
          | Pending => (st, cache)
          end
      | Resolved None =>
          (PostView_catch sig 1 (ErrorMessage "Post not found.") st, cache)
      | Rejected error => (PostView_catch sig 1 error st, cache)
      | Pending => (st, cache)
      end
  end.

(** Opening the post [postId]: the first render, then its effect. *)
Definition PostView_open (net : Upstream) (postId : Z)
    (sig : nat -> AbortSignal) (clock : nat -> Z)
    (cache : gmap Z (TimedValue PostSnapshot))
  : PostViewState * gmap Z (TimedValue PostSnapshot) :=
  let '(cachedPost, st, cache) := PostView_mount postId (clock 0) cache in
  PostView_effect net postId cachedPost sig clock st cache.

(** [const hasMore = ids.length > 0 && nextFetchIndex < ids.length], which
    decides whether [FeedView] shows the button that calls [handleLoadMore]. *)
Definition hasMore (st : FeedViewState) : bool :=
  (0 <? length (fv_ids st)) && (fv_nextFetchIndex st <? length (fv_ids st)).

(** ** Users *)

(** The body of [/user/<id>.json] as [fetchUserById] inspects it with
    [!user || typeof user.id !== "string"]. *)
Inductive UserPayload : Type :=
  | UserNull
  | UserNoStringId
  | UserRecord (user : HNUser).

(** [`${API_BASE}/user/${id}.json`] and what upstream answers to it. *)
Definition userEndpoint (users : string -> FetchOutcome UserPayload) (id : string)
  : Endpoint UserPayload :=
  mkEndpoint (ListUrl ("user/" +:+ id)) (users id).

Definition fetchUserById (users : string -> FetchOutcome UserPayload) (id : string)
    (signal : AbortSignal) : Async (option HNUser) :=
  await user := fetchJson (userEndpoint users id) signal in
  match user with
  | UserRecord user => ret (Some user)
  | UserNull | UserNoStringId => ret None
  end.

(** The state of [UserView]. *)
Record UserViewState : Type := mkUserView {
  uv_user : option HNUser;
  uv_loadState : LoadState;
  uv_errorMessage : option Error
}.

(** Opening the profile of [userId]: the first render of [UserView], which
    reads the cache under the lowercased handle, then its effect. *)
Definition UserView_open (users : string -> FetchOutcome UserPayload) (userId : string)
    (sig : nat -> AbortSignal) (clock : nat -> Z)
    (cache : gmap string (TimedValue HNUser))
  : UserViewState * gmap string (TimedValue HNUser) :=
  let cacheKey := UserView_cacheKey userId in
  let (cachedUser, cache) := UserView_mount userId (clock 0) cache in
  let st := mkUserView cachedUser
              (match cachedUser with Some _ => Ready | None => Loading end) None in
  match cachedUser with
  | Some _ => (st, cache)
  | None =>
      let onError (error : Error) :=
        if aborted (sig 1) then st else mkUserView None Failed (Some error) in
      match result (fetchUserById users userId (sig 0)) with
      | Resolved (Some nextUser) =>
          (mkUserView (Some nextUser) Ready None,
           writeTimedCache cache cacheKey nextUser (clock 1))
      | Resolved None => (onError (ErrorMessage "User not found."), cache)
      | Rejected error => (onError error, cache)
      | Pending => (st, cache)
      end
  end.

(** ** Navigation and formatting *)

(** The string literal a member of the union type [Section] is. *)
Definition sectionName (section : FeedSection) : string :=
  match section with
  | STop => "top" | SNew => "new" | SPast => "past" | SComments => "comments"
  | SAsk => "ask" | SShow => "show" | SJobs => "jobs" | SSubmit => "submit"
  end.

(** [normalizeSection(value)] for [value: string | null | undefined]. *)
Definition normalizeSection (value : option string) : FeedSection :=
  match value with
  | Some v =>
      if String.eqb v "new" then SNew
      else if String.eqb v "past" then SPast
      else if String.eqb v "comments" then SComments
      else if String.eqb v "ask" then SAsk
      else if String.eqb v "show" then SShow
      else if String.eqb v "jobs" then SJobs
      else if String.eqb v "submit" then SSubmit
      else STop
  | None => STop
  end.

(** [section === "top" ? "/" : `/?section=${section}`] *)
Definition sectionPath (section : FeedSection) : string :=
  match section with
  | STop => "/"
  | _ => "/?section=" +:+ sectionName section
  end.

(** The largest time value, in milliseconds, of a JavaScript [Date]; what
    [Date.now()] returns is an integer between [- MAX_TIME_VALUE] and
    [MAX_TIME_VALUE]. *)
Definition MAX_TIME_VALUE : Z := 8640000000000000.

(** [formatRelativeAge(unixTimeSeconds)] at time [now] (milliseconds); a
    missing time is [None], and [0] is as falsy as a missing one.  The code
    computes in doubles and prints them in a template string; the integer
    arithmetic below is what that gives as long as [now] and
    [1000 * unixTimeSeconds] are integers within [MAX_TIME_VALUE]: every
    number computed is then an integer below 2^53, every quotient is floored
    exactly and every number printed has plain decimal digits.  Outside that
    range the doubles round and the definition does not follow the code. *)
Definition formatRelativeAge (unixTimeSeconds : option Z) (now : Z) : string :=
  match unixTimeSeconds with
  | None => "unknown"
  | Some t =>
      if (t =? 0)%Z then "unknown"
      else
        let nowSeconds := (now / 1000)%Z in
        let diff := Z.max 0 (nowSeconds - t) in
        if (diff <? 60)%Z then pretty diff +:+ "s ago"
        else
          let mins := (diff / 60)%Z in
          if (mins <? 60)%Z then pretty mins +:+ "m ago"
          else
            let hours := (mins / 60)%Z in
            if (hours <? 24)%Z then pretty hours +:+ "h ago"
            else
              let days := (hours / 24)%Z in
              pretty days +:+ "d ago"
  end.

(** The rank [StoryListItem] shows for the item at [index] of the view:
    [section === "past" ? index + 1 + MAX_FRONT_PAGE_STORIES : index + 1]. *)
Definition StoryListItem_rank (section : FeedSection) (index : nat) : nat :=
  match section with
  | SPast => index + 1 + MAX_FRONT_PAGE_STORIES
  | _ => index + 1
  end.

(** The requests a comment tree of [levels] levels can need: 10 for the
    ids of a level and, for each of at most 10 comments, those of the
    levels below. *)
Fixpoint requestBound (levels : nat) : nat :=
  match levels with
  | 0 => 0
  | S levels =>
      MAX_CHILDREN_PER_LEVEL + MAX_CHILDREN_PER_LEVEL * requestBound levels
  end.

(** ** Vocabulary of the properties *)

(** What [fetchItemById(id, signal).catch(() => null)] resolves with. *)
Definition answer (net : Upstream) (signal : AbortSignal) (id : Z) : option HNItem :=
  match result (fetchItemOrNull net signal id) with
  | Resolved item => item
  | _ => None
  end.

(** The results the batch loop keeps. *)
Definition keepLive (item : option HNItem) : option HNItem :=
  match item with
  | Some it => if suppressed it then None else Some it
  | None => None
  end.

Definition live (results : list (option HNItem)) : list HNItem := omap keepLive results.

(** The items the page loop keeps. *)
Definition rendered (section : FeedSection) (items : list HNItem) : list HNItem :=
  filter (fun item => shouldRenderInSection item section) items.

(** The page assembled from the ids between [startIndex] and [nextFetchIndex]:
    the answers to them that are live and rendered in the section, up to a
    full page. *)
Definition pageOf (net : Upstream) (signal : AbortSignal) (ids : list Z)
    (section : FeedSection) (startIndex nextFetchIndex : nat) : list HNItem :=
  take PAGE_SIZE
    (rendered section (live (answer net signal <$> slice ids startIndex nextFetchIndex))).

(** Upstream answers a request for an item with an item of that id. *)
Definition faithful (net : Upstream) : Prop :=
  forall id r item,
    up_item net id = Responded r -> body r = Some (PayloadItem item) ->
    item_id item = id.


(** A chain of page fetches over one id list: each call starts at the cursor
    the previous one returned.  [nets] is upstream as it is during each
    call. *)
Fixpoint chainedPages (nets : list Upstream) (ids : list Z) (section : FeedSection)
    (startIndex : nat) (signal : AbortSignal) : Async (list FeedPage) :=
  match nets with
  | [] => ret []
  | net :: nets =>
      await page := fetchFeedPage net ids section startIndex signal in
      await rest := chainedPages nets ids section (page_nextFetchIndex page) signal in
      ret (page :: rest)
  end.

(** Every page of a chain returns a cursor that is at least the index its
    call started at. *)
Fixpoint cursorsAdvance (startIndex : nat) (pages : list FeedPage) : Prop :=
  match pages with
  | [] => True
  | page :: rest =>
      startIndex <= page_nextFetchIndex page /\
      cursorsAdvance (page_nextFetchIndex page) rest
  end.

(** [occurs_at forest depth d n]: the node [n] is in the forest returned by a
    call at depth [depth], in the list built by the (nested) call at depth
    [d]. *)
Inductive occurs_at : list HNCommentNode -> nat -> nat -> HNCommentNode -> Prop :=
  | occurs_root forest depth n :
      n ∈ forest -> occurs_at forest depth depth n
  | occurs_child forest depth parent d n :
      parent ∈ forest ->
      occurs_at (children parent) (S depth) d n ->
      occurs_at forest depth d n.

(** The number of levels of a forest. *)
Fixpoint nodeLevels (n : HNCommentNode) : nat :=
  S (foldr (fun c acc => max (nodeLevels c) acc) 0 (children n)).

Definition levels (forest : list HNCommentNode) : nat :=
  foldr (fun c acc => max (nodeLevels c) acc) 0 forest.

(** The forest [buildCommentTree] resolves with, as a function of the number
    of levels left, [MAX_COMMENT_DEPTH - depth]. *)
Fixpoint commentForest (budget : nat) (net : Upstream) (signal : AbortSignal)
    (ids : list Z) : list HNCommentNode :=
  match budget with
  | 0 => []
  | S budget =>
      (fun item => Node item (commentForest budget net signal (default [] (item_kids item))))
      <$> omap isValidComment (answer net signal <$> take MAX_CHILDREN_PER_LEVEL ids)
  end.

(** ** Sample upstreams *)

Definition sampleItem (id : Z) (type : ItemType) (kids : list Z) : HNItem :=
  mkItem id (Some type) None None None (Some "text"%string) None None None None
    (Some kids) None None.

Definition respond {T} (v : T) : FetchOutcome T := Responded (mkResponse 200%Z (Some v)).

Definition notAborted : AbortSignal := mkSignal false.

(** Every item request is answered by [item], lists are empty. *)
Definition upstreamOf (item : Z -> FetchOutcome ItemPayload) : Upstream :=
  mkUpstream item (fun _ => respond []) (respond (mkUpdates None)).

(** Every id is a comment whose only reply is itself. *)
Definition cyclicUpstream : Upstream :=
  upstreamOf (fun id => respond (PayloadItem (sampleItem id TComment [id]))).

(** Every id is a story without replies. *)
Definition storiesUpstream : Upstream :=
  upstreamOf (fun id => respond (PayloadItem (sampleItem id TStory []))).

(** Every request for an item is answered with status 404. *)
Definition notFoundUpstream : Upstream :=
  upstreamOf (fun _ => Responded (mkResponse 404%Z (Some PayloadNull))).

(** Every id is answered with the story 7. *)
Definition sameItemUpstream : Upstream :=
  upstreamOf (fun _ => respond (PayloadItem (sampleItem 7 TStory []))).

(** The post 1 has the replies 2 and 3, which have none. *)
Definition threadUpstream : Upstream :=
  upstreamOf (fun id =>
    if (id =? 1)%Z then respond (PayloadItem (sampleItem 1 TStory [2; 3]%Z))
    else respond (PayloadItem (sampleItem id TComment []))).

(** Every list holds the ids 100 to 149, every id is a story. *)
Definition feedUpstream : Upstream :=
  mkUpstream (up_item storiesUpstream)
    (fun _ => respond (JNumber <$> (Z.of_nat <$> seq 100 50)))
    (up_updates storiesUpstream).

(** The state of [FeedView] before its first load. *)
Definition initialFeedView : FeedViewState :=
  mkFeedView [] [] Idle None MAX_FRONT_PAGE_STORIES.

(** A clock that advances by one second per point. *)
Definition secondsClock (p : nat) : Z := (1000 * Z.of_nat p)%Z.

(** The user "pg", whatever the spelling of the handle asked for. *)
Definition usersUpstream (id : string) : FetchOutcome UserPayload :=
  respond (UserRecord (mkUser "pg" 1160418092 None 157316 None)).

(** * Properties *)

(** ** Promises *)

Lemma result_bind {A B} (m : Async A) (k : A -> Async B) :
  result (bind m k) =
  match result m with
  | Resolved a => result (k a)
  | Rejected e => Rejected e
  | Pending => Pending
  end.
Proof.
  destruct m as [[a | e |] l]; simpl; try reflexivity.
  destruct (k a); reflexivity.
Qed.

Lemma bind_resolved {A B} (a : A) (l : list Url) (k : A -> Async B) :
  bind (Resolved a, l) k = (result (k a), l ++ calls (k a)).
Proof. simpl. destruct (k a); reflexivity. Qed.

Lemma settleAll_resolved {A} (l : list A) : settleAll (Resolved <$> l) = Resolved l.
Proof.
  induction l as [| a l IH]; [reflexivity |].
  rewrite fmap_cons. cbn [settleAll]. by rewrite IH.
Qed.

(** [Promise.all] over members that all resolve. *)
Lemma Promise_all_resolved {A B} (f : A -> Async B) (g : A -> B) (l : list A) :
  (forall x, x ∈ l -> result (f x) = Resolved (g x)) ->
  result (Promise_all (f <$> l)) = Resolved (g <$> l).
Proof.
  intros Hf. unfold Promise_all, result at 1. simpl.
  rewrite <- list_fmap_compose.
  rewrite <- (settleAll_resolved (g <$> l)), <- list_fmap_compose.
  f_equal. apply list_fmap_ext. intros i x Hx. simpl.
  apply Hf. by eapply list_elem_of_lookup_2.
Qed.

(** ** Lists *)

Lemma slice_nil {A} (l : list A) (s : nat) : slice l s s = [].
Proof. unfold slice. by rewrite Nat.sub_diag. Qed.

(** Consecutive slices. *)
Lemma slice_app {A} (l : list A) (a b c : nat) :
  a <= b -> b <= c -> slice l a b ++ slice l b c = slice l a c.
Proof.
  intros Hab Hbc. unfold slice.
  replace (drop b l) with (drop (b - a) (drop a l))
    by (rewrite drop_drop; f_equal; lia).
  rewrite take_take_drop. f_equal. lia.
Qed.

(** A slice followed by the rest of the list. *)
Lemma slice_drop {A} (l : list A) (a b : nat) :
  a <= b -> slice l a b ++ drop b l = drop a l.
Proof.
  intros Hab. unfold slice.
  replace (drop b l) with (drop (b - a) (drop a l))
    by (rewrite drop_drop; f_equal; lia).
  apply take_drop.
Qed.

(** Filling an accumulator up to [n] elements from [a], then from [b]. *)
Lemma take_app_acc {A} (acc a b : list A) (n : nat) :
  (acc ++ take (n - length acc) a)
    ++ take (n - length (acc ++ take (n - length acc) a)) b =
  acc ++ take (n - length acc) (a ++ b).
Proof.
  rewrite take_app, <- app_assoc. do 2 f_equal.
  rewrite length_app, length_take.
  destruct (decide (length a <= n - length acc)) as [Hle | Hgt].
  - f_equal. lia.
  - replace (n - (length acc + (n - length acc) `min` length a)) with 0 by lia.
    replace (n - length acc - length a) with 0 by lia. reflexivity.
Qed.

Lemma length_omap_le {A B} (f : A -> option B) (l : list A) :
  length (omap f l) <= length l.
Proof.
  induction l as [| x l IH]; csimpl; [lia |].
  destruct (f x); csimpl; lia.
Qed.

(** ** Single-id fetch *)

Section Fetching.

Context (net : Upstream) (signal : AbortSignal).

Lemma fetchItemById_result (id : Z) :
  result (fetchItemById net id signal) =
  if aborted signal then Rejected AbortError
  else match up_item net id with
       | NetworkFailure => Rejected NetworkError
       | Responded r =>
           if ok r then
             match body r with
             | None => Rejected SyntaxError
             | Some (PayloadItem item) => Resolved (Some item)
             | Some PayloadNull | Some PayloadNoNumericId => Resolved None
             end
           else Rejected (RequestFailed (status r))
       end.
Proof.
  unfold fetchItemById, fetchJson, fetch, json. simpl.
  destruct (aborted signal); [reflexivity |].
  destruct (up_item net id) as [| r]; [reflexivity |].
  simpl. destruct (ok r); simpl; [| reflexivity].
  destruct (body r) as [[| | item] |]; reflexivity.
Qed.

Lemma fetchItemById_calls (id : Z) :
  calls (fetchItemById net id signal) = [ItemUrl id].
Proof.
  unfold fetchItemById, fetchJson, fetch, json. simpl.
  destruct (aborted signal); [reflexivity |].
  destruct (up_item net id) as [| r]; [reflexivity |].
  simpl. destruct (ok r); simpl; [| reflexivity].
  destruct (body r) as [[| | item] |]; reflexivity.
Qed.

Lemma fetchItemOrNull_eq (id : Z) :
  fetchItemOrNull net signal id = (Resolved (answer net signal id), [ItemUrl id]).
Proof.
  unfold answer, fetchItemOrNull.
  pose proof (fetchItemById_calls id) as Hc.
  destruct (fetchItemById net id signal) as [[a | e |] l] eqn:E; simpl in *;
    subst; try reflexivity.
  pose proof (fetchItemById_result id) as Hr. rewrite E in Hr.
  simpl in Hr. repeat case_match; discriminate.
Qed.

Lemma answer_eq (id : Z) :
  answer net signal id =
  if aborted signal then None
  else match up_item net id with
       | Responded r =>
           if ok r then
             match body r with
             | Some (PayloadItem item) => Some item
             | _ => None
             end
           else None
       | NetworkFailure => None
       end.
Proof.
  unfold answer, fetchItemOrNull.
  pose proof (fetchItemById_result id) as Hr.
  destruct (fetchItemById net id signal) as [[a | e |] l]; simpl in *;
    repeat case_match; congruence.
Qed.

Lemma answer_faithful (id : Z) (item : HNItem) :
  faithful net -> answer net signal id = Some item -> item_id item = id.
Proof.
  intros Hf. rewrite answer_eq. repeat case_match; try discriminate.
  intros [= <-]. eauto.
Qed.

Lemma Promise_all_items (ids : list Z) :
  Promise_all (fetchItemOrNull net signal <$> ids) =
  (Resolved (answer net signal <$> ids), ItemUrl <$> ids).
Proof.
  unfold Promise_all. f_equal.
  - rewrite <- list_fmap_compose.
    rewrite <- (settleAll_resolved (answer net signal <$> ids)), <- list_fmap_compose.
    f_equal. apply list_fmap_ext. intros i x _. simpl.
    by rewrite fetchItemOrNull_eq.
  - rewrite <- list_fmap_compose.
    induction ids as [| id ids IH]; [reflexivity |].
    rewrite !fmap_cons. cbn [concat compose].
    by rewrite fetchItemOrNull_eq, IH.
Qed.

(** ** Batch fetch *)

Lemma pushLive_eq (results : list (option HNItem)) (maxItems : nat) (items : list HNItem) :
  length items < maxItems ->
  pushLive results maxItems items =
  items ++ take (maxItems - length items) (live results).
Proof.
  revert items. induction results as [| [item |] rest IH]; intros items Hlt; simpl.
  - by rewrite take_nil, app_nil_r.
  - unfold live. simpl. destruct (suppressed item); [by apply IH |].
    fold (live rest).
    replace (maxItems - length items) with (S (maxItems - S (length items))) by lia.
    simpl. rewrite length_app. simpl.
    destruct (Nat.eqb_spec (length items + 1) maxItems) as [Heq | Hne].
    + replace (maxItems - S (length items)) with 0 by lia. by rewrite take_0.
    + rewrite IH by (rewrite length_app; simpl; lia).
      rewrite length_app, <- app_assoc. simpl. do 3 f_equal. lia.
  - by apply IH.
Qed.

Lemma fetchItemsByIds_loop_result (ids : list Z) (maxItems fuel startIndex : nat)
    (items : list HNItem) :
  length ids - startIndex < fuel ->
  result (fetchItemsByIds_loop fuel net ids signal maxItems startIndex items) =
  Resolved (items ++ take (maxItems - length items)
                       (live (answer net signal <$> drop startIndex ids))).
Proof.
  revert startIndex items.
  induction fuel as [| fuel IH]; intros startIndex items Hfuel; [lia |].
  cbn [fetchItemsByIds_loop].
  destruct (Nat.ltb_spec startIndex (length ids)) as [Hs | Hs]; cbn [andb].
  - destruct (Nat.ltb_spec (length items) maxItems) as [Hm | Hm].
    + rewrite Promise_all_items, bind_resolved. cbn [result fst].
      rewrite IH by (unfold FETCH_CHUNK_SIZE; lia).
      rewrite pushLive_eq by done.
      rewrite take_app_acc. unfold live. rewrite <- omap_app, <- fmap_app.
      rewrite slice_drop by lia. reflexivity.
    + replace (maxItems - length items) with 0 by lia.
      by rewrite take_0, app_nil_r.
  - rewrite drop_ge by lia. change (live (answer net signal <$> [])) with (@nil HNItem).
    by rewrite take_nil, app_nil_r.
Qed.

(** The batch fetch resolves with the live answers, in the order of the ids,
    cut at [maxItems]. *)
Lemma fetchItemsByIds_result (ids : list Z) (maxItems : option nat) :
  result (fetchItemsByIds net ids signal maxItems) =
  Resolved (take (default (length ids) maxItems) (live (answer net signal <$> ids))).
Proof.
  unfold fetchItemsByIds. rewrite fetchItemsByIds_loop_result by lia.
  simpl. by rewrite Nat.sub_0_r.
Qed.

Lemma live_not_suppressed (results : list (option HNItem)) (item : HNItem) :
  item ∈ live results -> suppressed item = false.
Proof.
  unfold live. rewrite list_elem_of_omap. intros ([it |] & _ & Hk); simpl in Hk.
  - destruct (suppressed it) eqn:E; congruence.
  - discriminate.
Qed.

Lemma live_ids_sublist (ids : list Z) :
  faithful net ->
  (item_id <$> live (answer net signal <$> ids)) `sublist_of` ids.
Proof.
  intros Hf. unfold live.
  induction ids as [| id ids IH]; simpl; [constructor |].
  destruct (answer net signal id) as [item |] eqn:E; simpl.
  - destruct (suppressed item); simpl.
    + by constructor.
    + rewrite (answer_faithful _ _ Hf E). by constructor.
  - by constructor.
Qed.

(** ** Feed pages *)

Lemma pushRendered_eq (fetchedItems : list HNItem) (section : FeedSection)
    (pageItems : list HNItem) :
  length pageItems < PAGE_SIZE ->
  pushRendered fetchedItems section pageItems =
  pageItems ++ take (PAGE_SIZE - length pageItems) (rendered section fetchedItems).
Proof.
  revert pageItems.
  induction fetchedItems as [| item rest IH]; intros pageItems Hlt;
    cbn [pushRendered].
  - change (rendered section []) with (@nil HNItem).
    by rewrite take_nil, app_nil_r.
  - unfold rendered. rewrite filter_cons.
    destruct (shouldRenderInSection item section) eqn:E; cbn [negb].
    + rewrite decide_True by done.
      replace (PAGE_SIZE - length pageItems)
        with (S (PAGE_SIZE - S (length pageItems))) by lia.
      cbn [take firstn]. rewrite length_app. cbn [length].
      destruct (Nat.eqb_spec (length pageItems + 1) PAGE_SIZE) as [Heq | Hne].
      * replace (PAGE_SIZE - S (length pageItems)) with 0 by lia.
        by rewrite take_0.
      * rewrite IH by (rewrite length_app; cbn [length]; lia).
        rewrite length_app, <- app_assoc. cbn [length app].
        unfold rendered. do 3 f_equal. lia.
    + rewrite decide_False by (cbn; tauto). by apply IH.
Qed.

Lemma length_live_le (results : list (option HNItem)) :
  length (live results) <= length results.
Proof. apply length_omap_le. Qed.

(** The loop of [fetchFeedPage] from [cursor] with [pageItems] collected. *)
Lemma fetchFeedPage_loop_spec (ids : list Z) (section : FeedSection)
    (fuel cursor : nat) (pageItems : list HNItem) :
  length ids - cursor < fuel ->
  exists next,
    result (fetchFeedPage_loop fuel net ids section signal cursor pageItems) =
      Resolved (mkPage
        (pageItems ++ take (PAGE_SIZE - length pageItems)
           (rendered section (live (answer net signal <$> slice ids cursor next))))
        next) /\
    cursor <= next /\
    (length pageItems < PAGE_SIZE -> next < length ids ->
       PAGE_SIZE - length pageItems <=
       length (rendered section (live (answer net signal <$> slice ids cursor next)))).
Proof.
  revert cursor pageItems.
  induction fuel as [| fuel IH]; intros cursor pageItems Hfuel; [lia |].
  cbn [fetchFeedPage_loop].
  assert (Hstop : exists next,
    result (ret (mkPage pageItems cursor)) =
      Resolved (mkPage
        (pageItems ++ take (PAGE_SIZE - length pageItems)
           (rendered section (live (answer net signal <$> slice ids cursor next))))
        next) /\ cursor <= next /\ next = cursor).
  { exists cursor. rewrite slice_nil.
    change (rendered section (live (answer net signal <$> []))) with (@nil HNItem).
    by rewrite take_nil, app_nil_r. }
  destruct (Nat.ltb_spec cursor (length ids)) as [Hc | Hc]; cbn [andb].
  - destruct (Nat.ltb_spec (length pageItems) PAGE_SIZE) as [Hp | Hp].
    + assert (Hchunk : length (slice ids cursor (cursor + PAGE_SIZE)) <> 0).
      { unfold slice, PAGE_SIZE. rewrite length_take, length_drop. lia. }
      destruct (Nat.eqb_spec (length (slice ids cursor (cursor + PAGE_SIZE))) 0)
        as [? | _]; [done |].
      destruct (fetchItemsByIds net (slice ids cursor (cursor + PAGE_SIZE)) signal
                  (Some (length (slice ids cursor (cursor + PAGE_SIZE)))))
        as [p l] eqn:Efetch.
      pose proof (fetchItemsByIds_result
        (slice ids cursor (cursor + PAGE_SIZE))
        (Some (length (slice ids cursor (cursor + PAGE_SIZE))))) as Hr.
      rewrite Efetch in Hr. cbn [result fst default] in Hr. subst p.
      rewrite take_ge in *
        by (etransitivity; [apply length_live_le | by rewrite length_fmap]).
      rewrite bind_resolved. cbn [result fst].
      rewrite pushRendered_eq by done.
      destruct (IH (cursor + PAGE_SIZE)
        (pageItems ++ take (PAGE_SIZE - length pageItems)
           (rendered section
              (live (answer net signal <$> slice ids cursor (cursor + PAGE_SIZE))))))
        as (next & Hres & Hle & Hfull); [unfold PAGE_SIZE; lia |].
      exists next. rewrite Hres.
      assert (Hsplit :
        rendered section (live (answer net signal <$> slice ids cursor next)) =
        rendered section
          (live (answer net signal <$> slice ids cursor (cursor + PAGE_SIZE)))
        ++ rendered section
             (live (answer net signal <$> slice ids (cursor + PAGE_SIZE) next))).
      { rewrite <- (slice_app ids cursor (cursor + PAGE_SIZE) next) by lia.
        unfold rendered, live. by rewrite fmap_app, omap_app, filter_app. }
      rewrite take_app_acc, <- Hsplit.
      split; [reflexivity |]. split; [lia |].
      intros _ Hnext. rewrite Hsplit, length_app.
      rewrite length_app, length_take in Hfull.
      destruct (decide (PAGE_SIZE - length pageItems <=
        length (rendered section
          (live (answer net signal <$> slice ids cursor (cursor + PAGE_SIZE))))))
        as [Hge | Hlt]; [lia |].
      specialize (Hfull ltac:(lia) Hnext). lia.
    + destruct Hstop as (next & Hres & Hle & ->). exists cursor.
      split; [done |]. split; [done |]. lia.
  - destruct Hstop as (next & Hres & Hle & ->). exists cursor.
    split; [done |]. split; [done |]. lia.
Qed.

(** A page is the live, rendered answers to the ids between the starting
    index and the returned cursor, cut at [PAGE_SIZE]; the cursor does not
    move back; and the page is full unless the id list is exhausted. *)
Lemma fetchFeedPage_spec (ids : list Z) (section : FeedSection) (startIndex : nat) :
  exists next,
    result (fetchFeedPage net ids section startIndex signal) =
      Resolved (mkPage (pageOf net signal ids section startIndex next) next) /\
    startIndex <= next /\
    (length (pageOf net signal ids section startIndex next) = PAGE_SIZE \/
     length ids <= next).
Proof.
  unfold fetchFeedPage.
  destruct (fetchFeedPage_loop_spec ids section (S (length ids)) startIndex []) as (next & Hres & Hle & Hfull); [lia |].
  exists next. cbn [app length] in *. rewrite Nat.sub_0_r in *.
  split; [exact Hres |]. split; [exact Hle |].
  destruct (decide (length ids <= next)) as [? | Hlt]; [by right | left].
  unfold pageOf. rewrite length_take.
  specialize (Hfull ltac:(unfold PAGE_SIZE; lia) ltac:(lia)). lia.
Qed.

(** ** Comment tree *)

(** With a budget of calls above the number of levels left, the builder
    resolves, and with the forest [commentForest] describes. *)
Lemma buildCommentTree_fuel_result (fuel : nat) (ids : list Z) (depth : nat) :
  MAX_COMMENT_DEPTH - depth < fuel ->
  result (buildCommentTree_fuel fuel net ids signal depth) =
  Resolved (commentForest (MAX_COMMENT_DEPTH - depth) net signal ids).
Proof.
  revert ids depth.
  induction fuel as [| fuel IH]; intros ids depth Hfuel; [lia |].
  cbn [buildCommentTree_fuel].
  destruct (Nat.leb_spec MAX_COMMENT_DEPTH depth) as [Hd | Hd]; cbn [orb].
  - by replace (MAX_COMMENT_DEPTH - depth) with 0 by lia.
  - destruct (Nat.eqb_spec (length ids) 0) as [Hnil | Hcons].
    + apply nil_length_inv in Hnil. subst ids.
      by destruct (MAX_COMMENT_DEPTH - depth).
    + rewrite Promise_all_items, bind_resolved. cbn [result fst].
      rewrite result_bind.
      rewrite (Promise_all_resolved _
        (fun item => Node item
           (commentForest (MAX_COMMENT_DEPTH - (depth + 1)) net signal
              (default [] (item_kids item))))).
      * cbn [ret result fst].
        replace (MAX_COMMENT_DEPTH - depth)
          with (S (MAX_COMMENT_DEPTH - (depth + 1))) by lia.
        unfold slice. by rewrite Nat.sub_0_r.
      * intros item _. rewrite result_bind, IH by lia. reflexivity.
Qed.

Lemma buildCommentTree_result (ids : list Z) (depth : nat) :
  result (buildCommentTree net ids signal depth) =
  Resolved (commentForest (MAX_COMMENT_DEPTH - depth) net signal ids).
Proof. apply buildCommentTree_fuel_result. lia. Qed.

(** The roots of a forest. *)
Lemma commentForest_root (budget : nat) (ids : list Z) (n : HNCommentNode) :
  n ∈ commentForest budget net signal ids ->
  exists budget' item,
    budget = S budget' /\
    n = Node item (commentForest budget' net signal (default [] (item_kids item))) /\
    isValidComment (Some item) = Some item /\
    Some item ∈ (answer net signal <$> take MAX_CHILDREN_PER_LEVEL ids).
Proof.
  destruct budget as [| budget']; cbn [commentForest].
  - by intros ?%elem_of_nil.
  - intros (item & -> & Hitem)%list_elem_of_fmap.
    apply list_elem_of_omap in Hitem as (r & Hr & Hvalid).
    exists budget', item. split; [done |]. split; [done |].
    destruct r as [it |]; [| discriminate].
    assert (it = item) as ->.
    { cbn in Hvalid. by case_match; simplify_eq. }
    done.
Qed.

(** Every node of a forest is a root of the forest of some id list, built
    with the budget left at its level. *)
Lemma occurs_at_commentForest (budget : nat) (ids : list Z) (depth d : nat)
    (n : HNCommentNode) :
  occurs_at (commentForest budget net signal ids) depth d n ->
  depth <= d /\ d < depth + budget /\
  exists ids', n ∈ commentForest (depth + budget - d) net signal ids'.
Proof.
  revert ids depth. induction budget as [| budget IH]; intros ids depth Hocc.
  - inversion Hocc as [? ? ? Hin | ? ? ? ? ? Hin]; subst;
      cbn in Hin; by apply elem_of_nil in Hin.
  - inversion Hocc as [? ? ? Hin | ? ? parent ? ? Hin Hsub]; subst.
    + split; [lia |]. split; [lia |]. exists ids.
      by replace (d + S budget - d) with (S budget) by lia.
    + apply commentForest_root in Hin
        as (budget' & item & [= <-] & -> & _ & _).
      cbn [children] in Hsub. apply IH in Hsub as (Hle & Hlt & ids' & Hin).
      split; [lia |]. split; [lia |]. exists ids'.
      by replace (depth + S budget - d) with (S depth + budget - d) by lia.
Qed.


Lemma levels_le (forest : list HNCommentNode) (k : nat) :
  (forall n, n ∈ forest -> nodeLevels n <= k) -> levels forest <= k.
Proof.
  induction forest as [| n forest IH]; intros Hall; cbn; [lia |].
  fold (levels forest).
  pose proof (Hall n ltac:(left)) as Hn.
  pose proof (IH (fun m Hm => Hall m ltac:(by right))) as Hrest.
  lia.
Qed.

Lemma levels_commentForest (budget : nat) (ids : list Z) :
  levels (commentForest budget net signal ids) <= budget.
Proof.
  revert ids. induction budget as [| budget IH]; intros ids; [cbn; lia |].
  apply levels_le. intros n Hn.
  apply commentForest_root in Hn as (budget' & item & [= <-] & -> & _).
  cbn [nodeLevels children].
  specialize (IH (default [] (item_kids item))). unfold levels in IH. lia.
Qed.

Lemma isValidComment_Some (item : HNItem) :
  isValidComment (Some item) = Some item ->
  item_type item = Some TComment /\ suppressed item = false.
Proof.
  unfold isValidComment, type_is, suppressed.
  destruct (bool_decide_reflect (item_type item = Some TComment));
    destruct (truthy (item_dead item)), (truthy (item_deleted item));
    cbn; intros; simplify_eq; done.
Qed.

End Fetching.

(** ** Chained pages *)

Lemma pageOf_ids_sublist (net : Upstream) (signal : AbortSignal) (ids : list Z)
    (section : FeedSection) (startIndex next : nat) :
  faithful net ->
  (item_id <$> pageOf net signal ids section startIndex next)
    `sublist_of` slice ids startIndex next.
Proof.
  intros Hf. unfold pageOf, rendered.
  transitivity (item_id <$> live (answer net signal <$> slice ids startIndex next));
    [| by apply live_ids_sublist].
  apply fmap_sublist.
  etransitivity; [apply sublist_take | apply sublist_filter].
Qed.

Lemma chainedPages_spec (nets : list Upstream) (ids : list Z) (section : FeedSection)
    (startIndex : nat) (signal : AbortSignal) :
  exists pages,
    result (chainedPages nets ids section startIndex signal) = Resolved pages /\
    length pages = length nets /\
    cursorsAdvance startIndex pages /\
    (Forall faithful nets ->
     (item_id <$> concat (page_items <$> pages)) `sublist_of` drop startIndex ids).
Proof.
  revert startIndex. induction nets as [| net nets IH]; intros startIndex.
  - exists []. repeat split. intros _. apply sublist_nil_l.
  - destruct (fetchFeedPage_spec net signal ids section startIndex)
      as (next & Hpage & Hle & _).
    destruct (IH next) as (rest & Hrest & Hlen & Hadv & Hsub).
    exists (mkPage (pageOf net signal ids section startIndex next) next :: rest).
    cbn [chainedPages]. rewrite result_bind, Hpage, result_bind.
    cbn [page_nextFetchIndex]. rewrite Hrest.
    split; [reflexivity |]. split; [cbn; by rewrite Hlen |].
    split; [by split |].
    intros [Hf Hfs]%Forall_cons.
    rewrite fmap_cons. cbn [concat page_items]. rewrite fmap_app.
    rewrite <- (slice_drop ids startIndex next) by done.
    apply sublist_app; [by apply pageOf_ids_sublist | by apply Hsub].
Qed.

(** The caller de-duplicates: [handleLoadMore] never adds an id the view
    already holds, and it chains the cursor the last page returned. *)
Lemma mergePage_NoDup (pageItems : list HNItem) (seen : gset Z)
    (mergedItems : list HNItem) :
  (forall id, id ∈ (item_id <$> mergedItems) -> id ∈ seen) ->
  NoDup (item_id <$> mergedItems) ->
  NoDup (item_id <$> mergePage pageItems seen mergedItems).
Proof.
  revert seen mergedItems.
  induction pageItems as [| item rest IH]; intros seen mergedItems Hseen Hnd;
    cbn [mergePage]; [done |].
  case_bool_decide as Hin; [by apply IH |].
  apply IH.
  - intros id. rewrite fmap_app, elem_of_app, elem_of_union, elem_of_singleton.
    intros [Hid | Hid%list_elem_of_singleton]; [right; by apply Hseen | by left].
  - rewrite fmap_app. apply NoDup_app. split; [done |]. split.
    + intros id Hid ?%list_elem_of_singleton. subst id. by apply Hin, Hseen.
    + apply NoDup_singleton.
Qed.

Lemma handleLoadMore_keeps_ids_distinct (net : Upstream) (section : FeedSection)
    (loadingMore : bool) (sig : nat -> AbortSignal) (clock : nat -> Z)
    (st : FeedViewState) (cache : gmap FeedSection (TimedValue FeedSnapshot)) :
  NoDup (item_id <$> fv_items st) ->
  NoDup (item_id <$> fv_items (fst (handleLoadMore net section loadingMore sig clock st cache)))
  /\ fv_nextFetchIndex st
     <= fv_nextFetchIndex (fst (handleLoadMore net section loadingMore sig clock st cache)).
Proof.
  intros Hnd. unfold handleLoadMore.
  destruct (_ || _ || _); [done |].
  destruct (fetchFeedPage_spec net (sig 0) (fv_ids st) section (fv_nextFetchIndex st))
    as (next & -> & Hle & _).
  destruct (aborted (sig 1)); [done |]. cbn [fst fv_items fv_nextFetchIndex].
  split; [| done].
  apply mergePage_NoDup; [| done].
  intros id Hid. by apply elem_of_list_to_set.
Qed.

(** C1, as stated, fails: a chain over an id list that repeats an id, or
    over an upstream that answers two ids with the same item, returns
    duplicate ids. *)
Lemma chained_pages_duplicate_ids :
  (exists pages,
     result (chainedPages [storiesUpstream] [1; 1]%Z STop 0 notAborted)
       = Resolved pages /\
     item_id <$> concat (page_items <$> pages) = [1; 1]%Z /\
     ~ NoDup (item_id <$> concat (page_items <$> pages))) /\
  (exists pages,
     result (chainedPages [sameItemUpstream] [1; 2]%Z STop 0 notAborted)
       = Resolved pages /\
     item_id <$> concat (page_items <$> pages) = [7; 7]%Z /\
     ~ NoDup (item_id <$> concat (page_items <$> pages))).
Proof.
  split; eexists; (split; [vm_compute; reflexivity |]);
    (split; [vm_compute; reflexivity |]);
    vm_compute; intros Hnd; apply NoDup_cons in Hnd as [Hnotin _];
    apply Hnotin; left.
Qed.

(** C1 (amended): a chain of page fetches, each starting at the cursor the
    previous one returned, resolves with one page per call, and each
    returned cursor is at least the index its call started at, for every id
    list and every upstream; for an id list without repeated ids and an
    upstream that answers each request with an item of the requested id, the
    concatenation of the pages has no duplicate ids and lists ids in the
    order of the id list. *)
Theorem chained_pages_distinct_ordered (nets : list Upstream) (ids : list Z)
    (section : FeedSection) (startIndex : nat) (signal : AbortSignal) :
  exists pages,
    result (chainedPages nets ids section startIndex signal) = Resolved pages /\
    length pages = length nets /\
    cursorsAdvance startIndex pages /\
    (NoDup ids ->
     Forall faithful nets ->
     NoDup (item_id <$> concat (page_items <$> pages)) /\
     (item_id <$> concat (page_items <$> pages)) `sublist_of` ids).
Proof.
  destruct (chainedPages_spec nets ids section startIndex signal)
    as (pages & Hres & Hlen & Hadv & Hsub).
  exists pages. split; [done |]. split; [done |]. split; [done |].
  intros Hnd Hf. specialize (Hsub Hf).
  assert (Hids : (item_id <$> concat (page_items <$> pages)) `sublist_of` ids)
    by (etransitivity; [exact Hsub | apply sublist_drop]).
  split; [| done].
  by eapply sublist_NoDup.
Qed.

Lemma storiesUpstream_faithful : faithful storiesUpstream.
Proof. intros id r item [= <-] [= <-]. reflexivity. Defined.

(** The amended C1 on a chain of two calls over the 50 ids 100 to 149: the
    first page holds 30 stories, the second the 20 that are left. *)
Lemma chained_pages_distinct_ordered_witness :
  exists pages,
    result (chainedPages [storiesUpstream; storiesUpstream]
              (Z.of_nat <$> seq 100 50) STop 0 notAborted) = Resolved pages /\
    length ∘ page_items <$> pages = [30; 20] /\
    page_nextFetchIndex <$> pages = [30; 60] /\
    cursorsAdvance 0 pages /\
    NoDup (item_id <$> concat (page_items <$> pages)) /\
    (item_id <$> concat (page_items <$> pages))
      `sublist_of` (Z.of_nat <$> seq 100 50).
Proof.
  destruct (chained_pages_distinct_ordered [storiesUpstream; storiesUpstream]
              (Z.of_nat <$> seq 100 50) STop 0 notAborted)
    as (pages & Hres & _ & Hadv & Hids).
  exists pages. split; [exact Hres |].
  assert (Hpages :
    length ∘ page_items <$> pages = [30; 20] /\
    page_nextFetchIndex <$> pages = [30; 60]).
  { revert Hres. vm_compute. intros [= <-]. split; reflexivity. }
  destruct Hpages as [Hlens Hcursors].
  split; [exact Hlens |]. split; [exact Hcursors |]. split; [exact Hadv |].
  apply Hids.
  - apply (NoDup_fmap_2 Z.of_nat), NoDup_seq.
  - repeat constructor; apply storiesUpstream_faithful.
Defined.

(** ** The bounds of the comment tree *)

(** C2: for every id list and every starting depth, [buildCommentTree]
    resolves with a forest of at most [MAX_COMMENT_DEPTH - depth], hence at
    most 5, levels; every node of it was built by a call at a depth below 5,
    so lies at most 5 levels from the root item; and the nodes built at the
    last depth, 4 (level 5), have no children. *)
Theorem buildCommentTree_depth_bounded (net : Upstream) (ids : list Z)
    (signal : AbortSignal) (depth : nat) :
  exists forest,
    result (buildCommentTree net ids signal depth) = Resolved forest /\
    levels forest <= MAX_COMMENT_DEPTH - depth /\
    levels forest <= 5 /\
    forall d n,
      occurs_at forest depth d n ->
      d < MAX_COMMENT_DEPTH /\
      d + 1 <= 5 /\
      (d + 1 = MAX_COMMENT_DEPTH -> children n = []).
Proof.
  exists (commentForest (MAX_COMMENT_DEPTH - depth) net signal ids).
  split; [apply buildCommentTree_result |].
  pose proof (levels_commentForest net signal (MAX_COMMENT_DEPTH - depth) ids) as Hl.
  split; [exact Hl |]. split; [unfold MAX_COMMENT_DEPTH in *; lia |].
  intros d n Hocc.
  apply occurs_at_commentForest in Hocc as (Hle & Hlt & ids' & Hin).
  assert (d < MAX_COMMENT_DEPTH) as Hd by lia.
  split; [exact Hd |]. split; [unfold MAX_COMMENT_DEPTH in *; lia |].
  intros Hlast.
  apply commentForest_root in Hin as (budget' & item & Hb & -> & _).
  assert (budget' = 0) as -> by lia. reflexivity.
Qed.

(** C3: an item whose [dead] or [deleted] flag is true is in no batch
    ([fetchItemsByIds]), in no feed page ([fetchFeedPage], whose filter
    [shouldRenderInSection] rejects it in every category), and at no level of
    a comment tree ([buildCommentTree]). *)
Theorem suppressed_items_never_returned (net : Upstream) (ids : list Z)
    (signal : AbortSignal) :
  (forall maxItems, exists items,
     result (fetchItemsByIds net ids signal maxItems) = Resolved items /\
     forall item, item ∈ items ->
       item_dead item <> Some true /\ item_deleted item <> Some true) /\
  (forall item section,
     item_dead item = Some true \/ item_deleted item = Some true ->
     shouldRenderInSection item section = false) /\
  (forall section startIndex, exists page,
     result (fetchFeedPage net ids section startIndex signal) = Resolved page /\
     forall item, item ∈ page_items page ->
       item_dead item <> Some true /\ item_deleted item <> Some true) /\
  (forall depth, exists forest,
     result (buildCommentTree net ids signal depth) = Resolved forest /\
     forall d n, occurs_at forest depth d n ->
       item_dead (node_item n) <> Some true /\
       item_deleted (node_item n) <> Some true).
Proof.
  assert (Hsup : forall item, suppressed item = false ->
            item_dead item <> Some true /\ item_deleted item <> Some true).
  { intros item. unfold suppressed.
    destruct (item_dead item) as [[] |], (item_deleted item) as [[] |];
      cbn; intros; split; congruence. }
  repeat split.
  - intros maxItems. eexists. split; [apply fetchItemsByIds_result |].
    intros item Hin%elem_of_take. destruct Hin as (i & Hin & _).
    apply list_elem_of_lookup_2 in Hin. apply Hsup.
    by eapply live_not_suppressed.
  - intros item section [H | H]; unfold shouldRenderInSection; rewrite H; cbn;
      [reflexivity | by rewrite orb_true_r].
  - intros section startIndex.
    destruct (fetchFeedPage_spec net signal ids section startIndex)
      as (next & Hres & _).
    eexists. split; [exact Hres |]. cbn [page_items]. unfold pageOf, rendered.
    intros item Hin%elem_of_take. destruct Hin as (i & Hin & _).
    apply list_elem_of_lookup_2, list_elem_of_filter in Hin as [_ Hin].
    apply Hsup. by eapply live_not_suppressed.
  - intros depth. eexists. split; [apply buildCommentTree_result |].
    intros d n Hocc.
    apply occurs_at_commentForest in Hocc as (_ & _ & ids' & Hin).
    apply commentForest_root in Hin as (budget' & item & _ & -> & Hvalid & _).
    cbn [node_item]. apply Hsup. by apply isValidComment_Some.
Qed.


(** C10: [buildCommentTree] terminates on every id list at every starting
    depth, whatever upstream answers: a call at depth 5 or more returns at
    once without a request, a call at a smaller depth only calls itself at
    [depth + 1], and so a budget of [MAX_COMMENT_DEPTH - depth + 1] nested
    calls always resolves, with the result any larger budget gives. *)
Theorem buildCommentTree_terminates (net : Upstream) (ids : list Z)
    (signal : AbortSignal) (depth extra : nat) :
  (exists forest,
     result (buildCommentTree_fuel (S (MAX_COMMENT_DEPTH - depth)) net ids signal depth)
       = Resolved forest /\
     result (buildCommentTree_fuel (S (MAX_COMMENT_DEPTH - depth) + extra) net ids
               signal depth) = Resolved forest /\
     result (buildCommentTree net ids signal depth) = Resolved forest) /\
  (MAX_COMMENT_DEPTH <= depth ->
   buildCommentTree_fuel (S extra) net ids signal depth = ret []) /\
  (depth < MAX_COMMENT_DEPTH -> ids <> [] ->
   buildCommentTree_fuel (S extra) net ids signal depth =
   bind (Promise_all (fetchItemOrNull net signal <$> take 10 ids))
     (fun results =>
        bind (Promise_all
                ((fun item =>
                    bind (buildCommentTree_fuel extra net
                            (default [] (item_kids item)) signal (depth + 1))
                      (fun children => ret (Node item children)))
                 <$> omap isValidComment results))
          (fun nodes => ret nodes))).
Proof.
  split; [| split].
  - exists (commentForest (MAX_COMMENT_DEPTH - depth) net signal ids).
    split; [apply buildCommentTree_fuel_result; lia |].
    split; [apply buildCommentTree_fuel_result; lia |].
    apply buildCommentTree_result.
  - intros Hd. cbn [buildCommentTree_fuel].
    destruct (Nat.leb_spec MAX_COMMENT_DEPTH depth) as [_ | ?]; [reflexivity | lia].
  - intros Hd Hids. cbn [buildCommentTree_fuel].
    destruct (Nat.leb_spec MAX_COMMENT_DEPTH depth) as [? | _]; [lia |].
    destruct ids as [| id ids]; [done |]. reflexivity.
Qed.

(** Termination on a cyclic upstream: every comment is its own reply, and
    the builder returns a chain of five nodes. *)
Example buildCommentTree_cyclic :
  exists forest,
    result (buildCommentTree cyclicUpstream [1]%Z notAborted 0) = Resolved forest /\
    levels forest = 5 /\
    calls (buildCommentTree cyclicUpstream [1]%Z notAborted 0)
      = [ItemUrl 1; ItemUrl 1; ItemUrl 1; ItemUrl 1; ItemUrl 1]%Z.
Proof. eexists. split; [vm_compute; reflexivity |]. split; vm_compute; reflexivity. Qed.

(** In that chain the comment 1 occurs at each of the depths 0 to 4, and
    with no children at depth 4. *)
Example buildCommentTree_cyclic_last_level :
  exists forest n,
    result (buildCommentTree cyclicUpstream [1]%Z notAborted 0) = Resolved forest /\
    occurs_at forest 0 4 n /\
    n = Node (sampleItem 1 TComment [1]%Z) [].
Proof.
  eexists. eexists. split; [vm_compute; reflexivity |]. split; [| reflexivity].
  do 4 (eapply occurs_child; [apply list_elem_of_here |]; cbn [children]).
  apply occurs_root, list_elem_of_here.
Qed.

(** ** Session cache *)

Lemma readTimedCache_entry {K T} `{Countable K} (cache : gmap K (TimedValue T))
    (key : K) (entry : TimedValue T) (maxAgeMs now : Z) :
  cache !! key = Some entry ->
  readTimedCache cache key maxAgeMs now =
  if bool_decide (now - createdAt entry <= maxAgeMs)%Z
  then (Some (value entry), cache)
  else (None, delete key cache).
Proof.
  intros Hentry. unfold readTimedCache. rewrite Hentry.
  destruct (Z.ltb_spec maxAgeMs (now - createdAt entry)).
  - by rewrite bool_decide_eq_false_2 by lia.
  - by rewrite bool_decide_eq_true_2 by lia.
Qed.

(** C4: in each of the three caches (feed snapshots by category with a TTL
    of 60 s, posts by post id with 120 s, users by lowercased handle with
    300 s) a read at time [now] of an entry created at [createdAt] returns its
    value and leaves the cache as it is exactly when [now - createdAt] is at
    most the TTL; otherwise the read reports absent and the cache it leaves
    has no entry for the key.  An entry is created by a write with the time
    of the write. *)
Theorem timed_cache_reads (c : Caches) (now : Z) :
  (forall section entry,
     feedCache c !! section = Some entry ->
     readTimedCache (feedCache c) section FEED_CACHE_TTL_MS now =
     if bool_decide (now - createdAt entry <= 60 * 1000)%Z
     then (Some (value entry), feedCache c)
     else (None, delete section (feedCache c))) /\
  (forall postId entry,
     postCache c !! postId = Some entry ->
     readTimedCache (postCache c) postId POST_CACHE_TTL_MS now =
     if bool_decide (now - createdAt entry <= 120 * 1000)%Z
     then (Some (value entry), postCache c)
     else (None, delete postId (postCache c))) /\
  (forall userId entry,
     userCache c !! toLowerCase userId = Some entry ->
     UserView_mount userId now (userCache c) =
       readTimedCache (userCache c) (toLowerCase userId) USER_CACHE_TTL_MS now /\
     readTimedCache (userCache c) (toLowerCase userId) USER_CACHE_TTL_MS now =
     if bool_decide (now - createdAt entry <= 300 * 1000)%Z
     then (Some (value entry), userCache c)
     else (None, delete (toLowerCase userId) (userCache c))) /\
  (forall K T `(Countable K) (cache : gmap K (TimedValue T)) key v T0,
     writeTimedCache cache key v T0 !! key = Some (mkTimed v T0) /\
     delete key (writeTimedCache cache key v T0) !! key = None /\
     forall maxAgeMs,
       readTimedCache (writeTimedCache cache key v T0) key maxAgeMs now =
       if bool_decide (now - T0 <= maxAgeMs)%Z
       then (Some v, writeTimedCache cache key v T0)
       else (None, delete key (writeTimedCache cache key v T0))).
Proof.
  split; [| split; [| split]].
  - intros section entry Hentry. by apply readTimedCache_entry.
  - intros postId entry Hentry. by apply readTimedCache_entry.
  - intros userId entry Hentry. split; [reflexivity |].
    by apply readTimedCache_entry.
  - intros K T ? ? cache key v T0.
    assert (writeTimedCache cache key v T0 !! key = Some (mkTimed v T0)) as Hw
      by apply lookup_insert_eq.
    split; [exact Hw |]. split; [apply lookup_delete_eq |].
    intros maxAgeMs. by rewrite (readTimedCache_entry _ _ _ _ _ Hw).
Qed.

(** The scenario of the specification: an entry written at [T0] is returned
    at [T0 + TTL] and absent at [T0 + TTL + 1]. *)
Example feed_cache_expiry (snap : FeedSnapshot) :
  fst (readTimedCache (writeTimedCache ∅ STop snap 1000) STop FEED_CACHE_TTL_MS 61000)
    = Some snap /\
  readTimedCache (writeTimedCache ∅ STop snap 1000) STop FEED_CACHE_TTL_MS 61001
    = (None, ∅).
Proof.
  unfold readTimedCache, writeTimedCache. rewrite lookup_insert_eq. cbn.
  split; [reflexivity |]. by rewrite delete_insert_eq, delete_empty.
Qed.

(** ** Single-id fetch: what is thrown and what is null *)

(** C5, as stated, fails: a 404 response makes the single-id fetch reject,
    not return null. *)
Lemma fetchItemById_rejects_on_404 :
  result (fetchItemById notFoundUpstream 1 notAborted) = Rejected (RequestFailed 404) /\
  result (fetchItemById notFoundUpstream 1 notAborted) <> Resolved None.
Proof. split; [reflexivity | discriminate]. Qed.

(** C5 (amended): a single-id fetch makes one request; it returns null when
    a success response carries [null] or an object without a numeric id, and
    the item when it carries one; it rejects on a non-success response (with
    the status), as it does on a transport failure, on cancellation and on a
    body that is not JSON; the batch and tree callers, which catch, turn
    every rejection into null. *)
Theorem fetchItemById_outcomes (net : Upstream) (id : Z) (signal : AbortSignal) :
  calls (fetchItemById net id signal) = [ItemUrl id] /\
  result (fetchItemById net id signal) =
    (if aborted signal then Rejected AbortError
     else match up_item net id with
          | NetworkFailure => Rejected NetworkError
          | Responded r =>
              if ok r then
                match body r with
                | None => Rejected SyntaxError
                | Some (PayloadItem item) => Resolved (Some item)
                | Some PayloadNull | Some PayloadNoNumericId => Resolved None
                end
              else Rejected (RequestFailed (status r))
          end) /\
  result (fetchItemOrNull net signal id) =
    Resolved (match result (fetchItemById net id signal) with
              | Resolved item => item
              | _ => None
              end).
Proof.
  split; [apply fetchItemById_calls |]. split; [apply fetchItemById_result |].
  pose proof (fetchItemById_result net signal id) as Hr.
  unfold fetchItemOrNull, catch.
  destruct (fetchItemById net id signal) as [[item | e |] l]; try reflexivity.
  cbn in Hr. repeat case_match; discriminate.
Qed.

(** ** Page assembly *)




(** The scenarios of the specification: a jobs page over the ids 1, 2, 3
    where 2 is a story holds 1 and 3; the first page of past over 50 ids
    starts at index 30. *)
Example jobs_page_scenario :
  let net := upstreamOf (fun id =>
    respond (PayloadItem (sampleItem id (if (id =? 2)%Z then TStory else TJob) []))) in
  exists page,
    result (fetchFeedPage net [1; 2; 3]%Z SJobs 0 notAborted) = Resolved page /\
    item_id <$> page_items page = [1; 3]%Z.
Proof. eexists. split; vm_compute; reflexivity. Qed.

Example past_page_scenario :
  let net := mkUpstream (up_item storiesUpstream)
               (fun _ => respond (JNumber <$> (Z.of_nat <$> seq 100 50)))
               (up_updates storiesUpstream) in
  let '(st, cache) :=
    loadFeed net SPast false (fun _ => notAborted) (fun _ => 0%Z)
      (mkFeedView [] [] Idle None MAX_FRONT_PAGE_STORIES) ∅ in
  fv_loadState st = Ready /\
  item_id <$> fv_items st = Z.of_nat <$> seq 130 20 /\
  fv_nextFetchIndex st = 60.
Proof. vm_compute. repeat split. Qed.

(** ** Id-list resolver *)

Lemma numericIds_filter (entries : list JsonValue) :
  JNumber <$> numericIds entries = filter (fun v => is_Some (isNumber v)) entries.
Proof.
  unfold numericIds. induction entries as [| v entries IH]; [reflexivity |].
  rewrite filter_cons. destruct v; csimpl; by rewrite <- ?IH.
Qed.

(** C9: for submit the resolver returns the empty list without a request;
    for comments it returns the numeric entries of the [items] field of
    [/updates.json] (none when the field is missing); for every other
    category the numeric entries of the category's list; the entries that are
    not numbers are dropped, the others kept in order, and the promise
    resolves. *)
Theorem fetchStoryIds_resolver (net : Upstream) (signal : AbortSignal) :
  fetchStoryIds net SSubmit signal = (Resolved [], []) /\
  (forall r updates,
     aborted signal = false ->
     up_updates net = Responded r -> ok r = true -> body r = Some updates ->
     fetchStoryIds net SComments signal =
       (Resolved (numericIds (default [] (updates_items updates))), [UpdatesUrl])) /\
  (forall section r entries,
     section <> SSubmit -> section <> SComments ->
     aborted signal = false ->
     up_list net (fetchStoryIds_endpoint section) = Responded r ->
     ok r = true -> body r = Some entries ->
     fetchStoryIds net section signal =
       (Resolved (numericIds entries), [ListUrl (fetchStoryIds_endpoint section)])) /\
  (forall entries,
     JNumber <$> numericIds entries = filter (fun v => is_Some (isNumber v)) entries /\
     forall v, is_Some (isNumber v) <-> exists n, v = JNumber n).
Proof.
  split; [reflexivity |]. split; [| split].
  - intros r updates Hsig Hup Hok Hbody.
    unfold fetchStoryIds, fetchJson, fetch, json.
    cbn [updatesEndpoint outcome url]. rewrite Hsig, Hup. cbn [bind].
    rewrite Hok, Hbody. reflexivity.
  - intros section r entries Hsub Hcom Hsig Hup Hok Hbody.
    assert (fetchStoryIds net section signal =
            bind (fetchJson (listEndpoint net (fetchStoryIds_endpoint section)) signal)
              (fun storyIds => ret (numericIds storyIds))) as ->
      by (by destruct section).
    unfold fetchJson, fetch, json.
    cbn [listEndpoint outcome url]. rewrite Hsig, Hup. cbn [bind].
    rewrite Hok, Hbody. reflexivity.
  - intros entries. split; [apply numericIds_filter |].
    intros v. destruct v; cbn; split;
      try (by intros [? ?]); try (intros [? ?]; discriminate); eauto.
Qed.

(** The endpoints of the categories, and a list with entries that are not
    numbers. *)
Example fetchStoryIds_scenario :
  let net := mkUpstream (up_item storiesUpstream)
               (fun _ => respond [JNumber 3; JNull; JString "4"; JNumber 1; JBool true])
               (respond (mkUpdates (Some [JString "x"; JNumber 9])))%Z in
  fetchStoryIds net SJobs notAborted = (Resolved [3; 1]%Z, [ListUrl "jobstories"]) /\
  fetchStoryIds net SPast notAborted = (Resolved [3; 1]%Z, [ListUrl "topstories"]) /\
  fetchStoryIds net SComments notAborted = (Resolved [9]%Z, [UpdatesUrl]).
Proof. repeat split. Qed.

(** ** Cancellation *)

(** [loadFeed] checks its signal each time it resumes: once the signal is
    aborted at the first resumption, what upstream delivered makes no
    difference to the state and the cache the operation leaves. *)
Lemma loadFeed_cancelled_early (net net' : Upstream) (section : FeedSection)
    (forceFresh : bool) (sig : nat -> AbortSignal) (clock : nat -> Z)
    (st : FeedViewState) (cache : gmap FeedSection (TimedValue FeedSnapshot)) :
  aborted (sig 1) = true ->
  loadFeed net section forceFresh sig clock st cache =
  loadFeed net' section forceFresh sig clock st cache.
Proof.
  intros Hab. unfold loadFeed, loadFeed_catch. rewrite Hab.
  destruct section; try reflexivity;
    (destruct (if negb forceFresh then _ else _) as [[snap |] cache'];
     [reflexivity |]);
    by repeat case_match.
Qed.

(** Aborted during the page fetch, [loadFeed] leaves the loading state it
    entered before its first [await] and writes nothing to the cache. *)
Lemma loadFeed_cancelled_late (net : Upstream) (section : FeedSection)
    (sig : nat -> AbortSignal) (clock : nat -> Z)
    (st : FeedViewState) (cache : gmap FeedSection (TimedValue FeedSnapshot))
    (allIds : list Z) :
  section <> SSubmit ->
  result (fetchStoryIds net section (sig 0)) = Resolved allIds ->
  aborted (sig 3) = true ->
  loadFeed net section true sig clock st cache =
  (mkFeedView [] [] Loading None (fv_nextFetchIndex st), cache).
Proof.
  intros Hsection Hids Hab. unfold loadFeed, loadFeed_catch.
  destruct section; try done; cbn [negb]; rewrite Hids, Hab;
    by repeat case_match.
Qed.

(** The effect of [PostView] never reads its signal on the path on which the
    post is found: whatever the signal is at any point, the forest the tree
    builder resolved with is put into the state and written to the cache. *)
Lemma PostView_effect_found (net : Upstream) (postId : Z)
    (sig : nat -> AbortSignal) (clock : nat -> Z)
    (st : PostViewState) (cache : gmap Z (TimedValue PostSnapshot))
    (nextItem : HNItem) :
  result (fetchItemById net postId (sig 0)) = Resolved (Some nextItem) ->
  PostView_effect net postId None sig clock st cache =
  let nextComments :=
    commentForest MAX_COMMENT_DEPTH net (sig 2) (default [] (item_kids nextItem)) in
  (mkPostView (Some nextItem) nextComments Ready (pv_errorMessage st),
   writeTimedCache cache postId (mkPostSnapshot nextItem nextComments) (clock 3)).
Proof.
  intros Hitem. unfold PostView_effect. rewrite Hitem.
  by rewrite buildCommentTree_result.
Qed.

(** C6 fails on [PostView]: the post 1 has the live replies 2 and 3; its
    load is cancelled (the view is left) once the post itself has arrived and
    while the replies are being fetched.  Each reply fetch then rejects and
    is caught as null, the tree builder resolves with the empty forest, and
    the cancelled operation stores it: in its state, marked ready, and in the
    post cache.  A later visit to the same post within the TTL is served from
    that entry and shows no comment, where an undisturbed load shows two. *)
Theorem PostView_cancelled_load_is_cached :
  let post := sampleItem 1 TStory [2; 3]%Z in
  let clock := fun p : nat => (1000 * Z.of_nat p)%Z in
  let cancelled := fun p : nat => mkSignal (2 <=? p) in
  let undisturbed := fun _ : nat => notAborted in
  let A := PostView_open threadUpstream 1 cancelled clock ∅ in
  let B := PostView_open threadUpstream 1 undisturbed
             (fun p => (10000 + clock p)%Z) (snd A) in
  let fresh := PostView_open threadUpstream 1 undisturbed clock ∅ in
  aborted (cancelled 3) = true /\
  fst A = mkPostView (Some post) [] Ready None /\
  snd A !! 1%Z = Some (mkTimed (mkPostSnapshot post []) 3000) /\
  fst B = mkPostView (Some post) [] Ready None /\
  (node_item <$> pv_comments (fst fresh)) =
    [sampleItem 2 TComment []; sampleItem 3 TComment []] /\
  (post_comments ∘ value <$> snd fresh !! 1%Z) =
    Some [Node (sampleItem 2 TComment []) []; Node (sampleItem 3 TComment []) []].
Proof. vm_compute. repeat split. Qed.

(** * Further properties of the data layer *)

(** ** Requests *)

Lemma calls_bind {A B} (m : Async A) (k : A -> Async B) :
  calls (bind m k) =
  match result m with
  | Resolved a => calls m ++ calls (k a)
  | _ => calls m
  end.
Proof.
  destruct m as [[a | e |] l]; simpl; try reflexivity.
  destruct (k a); reflexivity.
Qed.

Lemma live_app (l1 l2 : list (option HNItem)) : live (l1 ++ l2) = live l1 ++ live l2.
Proof. apply omap_app. Qed.

Section Requests.

Context (net : Upstream) (signal : AbortSignal).

(** What the batch loop holds after [j] more chunks. *)
Let collected (ids : list Z) (maxItems startIndex : nat) (items : list HNItem)
    (j : nat) : list HNItem :=
  items ++ take (maxItems - length items)
             (live (answer net signal
                      <$> slice ids startIndex (startIndex + FETCH_CHUNK_SIZE * j))).

Lemma fetchItemsByIds_loop_calls (ids : list Z) (maxItems fuel startIndex : nat)
    (items : list HNItem) :
  length ids - startIndex < fuel ->
  exists k,
    calls (fetchItemsByIds_loop fuel net ids signal maxItems startIndex items) =
      ItemUrl <$> slice ids startIndex (startIndex + FETCH_CHUNK_SIZE * k) /\
    (forall j, j < k ->
       startIndex + FETCH_CHUNK_SIZE * j < length ids /\
       length (collected ids maxItems startIndex items j) < maxItems) /\
    (length ids <= startIndex + FETCH_CHUNK_SIZE * k \/
     maxItems <= length (collected ids maxItems startIndex items k)).
Proof.
  revert startIndex items.
  induction fuel as [| fuel IH]; intros startIndex items Hfuel; [lia |].
  cbn [fetchItemsByIds_loop].
  assert (Hzero : collected ids maxItems startIndex items 0 = items).
  { unfold collected. rewrite Nat.mul_0_r, Nat.add_0_r, slice_nil.
    change (live (answer net signal <$> [])) with (@nil HNItem).
    by rewrite take_nil, app_nil_r. }
  destruct (Nat.ltb_spec startIndex (length ids)) as [Hs | Hs]; cbn [andb].
  - destruct (Nat.ltb_spec (length items) maxItems) as [Hm | Hm].
    + rewrite Promise_all_items, bind_resolved. cbn [calls snd].
      rewrite pushLive_eq by done.
      destruct (IH (startIndex + FETCH_CHUNK_SIZE)
        (items ++ take (maxItems - length items)
           (live (answer net signal
                    <$> slice ids startIndex (startIndex + FETCH_CHUNK_SIZE)))))
        as (k & Hcalls & Hneeded & Hstop); [unfold FETCH_CHUNK_SIZE; lia |].
      assert (Hshift : forall j,
        collected ids maxItems (startIndex + FETCH_CHUNK_SIZE)
          (items ++ take (maxItems - length items)
             (live (answer net signal
                      <$> slice ids startIndex (startIndex + FETCH_CHUNK_SIZE)))) j =
        collected ids maxItems startIndex items (S j)).
      { intros j. unfold collected. rewrite take_app_acc, <- live_app, <- fmap_app.
        rewrite slice_app by lia.
        by replace (startIndex + FETCH_CHUNK_SIZE + FETCH_CHUNK_SIZE * j)
          with (startIndex + FETCH_CHUNK_SIZE * S j)
          by (unfold FETCH_CHUNK_SIZE; lia). }
      exists (S k). split; [| split].
      * rewrite Hcalls, <- fmap_app, slice_app by lia.
        by replace (startIndex + FETCH_CHUNK_SIZE + FETCH_CHUNK_SIZE * k)
          with (startIndex + FETCH_CHUNK_SIZE * S k)
          by (unfold FETCH_CHUNK_SIZE; lia).
      * intros [| j] Hj.
        -- rewrite Hzero. lia.
        -- rewrite <- Hshift. destruct (Hneeded j) as [? ?]; [lia |].
           split; [unfold FETCH_CHUNK_SIZE in *; lia | done].
      * rewrite <- Hshift.
        destruct Hstop as [? | ?]; [left; unfold FETCH_CHUNK_SIZE in *; lia | by right].
    + exists 0. rewrite Nat.mul_0_r, Nat.add_0_r, slice_nil, Hzero.
      split; [reflexivity |]. split; [lia | by right].
  - exists 0. rewrite Nat.mul_0_r, Nat.add_0_r, slice_nil.
    split; [reflexivity |]. split; [lia | by left].
Qed.

(** Asked for as many items as there are ids, the batch fetch requests
    every id. *)
Lemma fetchItemsByIds_calls_all (ids : list Z) (maxItems : option nat) :
  length ids <= default (length ids) maxItems ->
  calls (fetchItemsByIds net ids signal maxItems) = ItemUrl <$> ids.
Proof.
  intros Hmax. unfold fetchItemsByIds.
  destruct (fetchItemsByIds_loop_calls ids (default (length ids) maxItems)
              (S (length ids)) 0 []) as (k & -> & _ & Hstop); [lia |].
  f_equal. unfold slice. rewrite drop_0. apply take_ge.
  destruct Hstop as [? | Hfull]; [lia |].
  unfold collected in Hfull. cbn [app length] in Hfull.
  rewrite length_take in Hfull.
  pose proof (length_live_le
    (answer net signal <$> slice ids 0 (0 + FETCH_CHUNK_SIZE * k))) as Hlive.
  rewrite length_fmap in Hlive. unfold slice in *.
  rewrite length_take in Hlive. lia.
Qed.

(** The loop of [fetchFeedPage]: the cursor moves by whole chunks and the
    ids from the cursor it started at to the one it returns are requested,
    each once and in order. *)
Lemma fetchFeedPage_loop_calls (ids : list Z) (section : FeedSection)
    (fuel cursor : nat) (pageItems : list HNItem) :
  length ids - cursor < fuel ->
  exists k page,
    fetchFeedPage_loop fuel net ids section signal cursor pageItems =
      (Resolved page, ItemUrl <$> slice ids cursor (cursor + PAGE_SIZE * k)) /\
    page_nextFetchIndex page = cursor + PAGE_SIZE * k.
Proof.
  revert cursor pageItems.
  induction fuel as [| fuel IH]; intros cursor pageItems Hfuel; [lia |].
  cbn [fetchFeedPage_loop].
  assert (Hstop : exists k page,
    ret (mkPage pageItems cursor) =
      (Resolved page, ItemUrl <$> slice ids cursor (cursor + PAGE_SIZE * k)) /\
    page_nextFetchIndex page = cursor + PAGE_SIZE * k).
  { exists 0, (mkPage pageItems cursor).
    rewrite Nat.mul_0_r, Nat.add_0_r, slice_nil. by split. }
  destruct (Nat.ltb_spec cursor (length ids)) as [Hcur | Hcur]; cbn [andb]; [| done].
  destruct (length pageItems <? PAGE_SIZE); [| done].
  destruct (length (slice ids cursor (cursor + PAGE_SIZE)) =? 0); [done |].
  set (chunk := slice ids cursor (cursor + PAGE_SIZE)).
  destruct (fetchItemsByIds net chunk signal (Some (length chunk)))
    as [p l] eqn:Efetch.
  pose proof (fetchItemsByIds_result net signal chunk (Some (length chunk))) as Hr.
  pose proof (fetchItemsByIds_calls_all chunk (Some (length chunk))
                ltac:(cbn; lia)) as Hc.
  rewrite Efetch in Hr, Hc. cbn [result calls fst snd] in Hr, Hc. subst p l.
  rewrite bind_resolved.
  destruct (IH (cursor + PAGE_SIZE)
    (pushRendered
       (take (default (length chunk) (Some (length chunk)))
          (live (answer net signal <$> chunk))) section pageItems))
    as (k & page & Hloop & Hnext); [unfold PAGE_SIZE; lia |].
  exists (S k), page. rewrite Hloop. cbn [result calls fst snd].
  split; [| unfold PAGE_SIZE in *; lia].
  f_equal. unfold chunk. rewrite <- fmap_app, slice_app by lia.
  by replace (cursor + PAGE_SIZE + PAGE_SIZE * k)
    with (cursor + PAGE_SIZE * S k) by (unfold PAGE_SIZE; lia).
Qed.

End Requests.

(** ** Batch fetch and pages *)

(** X1: the batch fetch never rejects: it resolves with the answers that
    are neither missing nor dead nor deleted, in the order of the ids, cut at
    [maxItems] (all of them when [maxItems] is left out); with an upstream
    that answers each id with an item of that id, the ids of the items are a
    subsequence of the ids asked for. *)
Theorem fetchItemsByIds_live_in_order (net : Upstream) (ids : list Z)
    (signal : AbortSignal) (maxItems : option nat) :
  exists items,
    result (fetchItemsByIds net ids signal maxItems) = Resolved items /\
    items = take (default (length ids) maxItems) (live (answer net signal <$> ids)) /\
    length items <= default (length ids) maxItems /\
    length items <= length ids /\
    (maxItems = None -> items = live (answer net signal <$> ids)) /\
    (faithful net -> (item_id <$> items) `sublist_of` ids).
Proof.
  eexists. split; [apply fetchItemsByIds_result |]. split; [reflexivity |].
  pose proof (length_live_le (answer net signal <$> ids)) as Hlive.
  rewrite length_fmap in Hlive.
  split; [rewrite length_take; lia |]. split; [rewrite length_take; lia |].
  split.
  - intros ->. cbn [default]. apply take_ge. lia.
  - intros Hf. etransitivity; [| by apply live_ids_sublist].
    apply fmap_sublist, sublist_take.
Qed.

(** X2: the batch fetch requests the ids in chunks of 15, in order, and
    stops early: a chunk is requested only while ids are left and fewer than
    [maxItems] live items have been collected from the chunks before it, and
    the requests end when the ids are exhausted or [maxItems] is reached. *)
Theorem fetchItemsByIds_requests_by_chunk (net : Upstream) (ids : list Z)
    (signal : AbortSignal) (maxItems : option nat) :
  exists k,
    calls (fetchItemsByIds net ids signal maxItems) = ItemUrl <$> take (15 * k) ids /\
    (forall j, j < k ->
       15 * j < length ids /\
       length (live (answer net signal <$> take (15 * j) ids))
         < default (length ids) maxItems) /\
    (length ids <= 15 * k \/
     default (length ids) maxItems
       <= length (live (answer net signal <$> take (15 * k) ids))).
Proof.
  unfold fetchItemsByIds.
  destruct (fetchItemsByIds_loop_calls net signal ids (default (length ids) maxItems)
              (S (length ids)) 0 []) as (k & Hcalls & Hneeded & Hstop); [lia |].
  unfold slice, FETCH_CHUNK_SIZE in *. cbn [app length Nat.add] in *.
  rewrite Nat.sub_0_r, drop_0 in *.
  exists k. split; [exact Hcalls |]. split.
  - intros j Hj. destruct (Hneeded j Hj) as [Hleft Hfew]. split; [done |].
    rewrite Nat.sub_0_r, length_take in Hfew. lia.
  - destruct Hstop as [? | Hfull]; [by left | right].
    rewrite Nat.sub_0_r, length_take in Hfull. lia.
Qed.

(** X3: a page fetch moves the cursor by whole chunks of 30 and requests
    the ids from the starting index to the returned cursor, each once and in
    order, and no other; started at or past the end of the id list it
    requests nothing and returns the empty page with the cursor it was
    given. *)
Theorem fetchFeedPage_requests (net : Upstream) (ids : list Z)
    (section : FeedSection) (startIndex : nat) (signal : AbortSignal) :
  exists k page,
    fetchFeedPage net ids section startIndex signal =
      (Resolved page, ItemUrl <$> slice ids startIndex (startIndex + 30 * k)) /\
    page_nextFetchIndex page = startIndex + 30 * k /\
    (length ids <= startIndex -> k = 0 /\ page_items page = []).
Proof.
  unfold fetchFeedPage.
  destruct (fetchFeedPage_loop_calls net signal ids section (S (length ids))
              startIndex []) as (k & page & Hloop & Hnext); [lia |].
  exists k, page. split; [exact Hloop |]. split; [exact Hnext |].
  intros Hpast. cbn [fetchFeedPage_loop] in Hloop.
  destruct (Nat.ltb_spec startIndex (length ids)) as [? | _]; [lia |].
  cbn [andb] in Hloop. injection Hloop as <- _.
  cbn [page_nextFetchIndex] in Hnext. unfold PAGE_SIZE in Hnext.
  split; [lia | reflexivity].
Qed.

(** X4: a page with fewer than 30 items means the id list is exhausted: it
    then holds every answer from the starting index to the end of the list
    that is live and rendered in the section, and the returned cursor is at
    or past the end. *)
Theorem fetchFeedPage_short_page_is_complete (net : Upstream) (ids : list Z)
    (section : FeedSection) (startIndex : nat) (signal : AbortSignal) :
  exists page,
    result (fetchFeedPage net ids section startIndex signal) = Resolved page /\
    (length (page_items page) < 30 ->
     length ids <= page_nextFetchIndex page /\
     page_items page =
       filter (fun item => shouldRenderInSection item section)
         (live (answer net signal <$> drop startIndex ids))).
Proof.
  destruct (fetchFeedPage_spec net signal ids section startIndex)
    as (next & Hres & Hle & Hfull).
  eexists. split; [exact Hres |]. cbn [page_items page_nextFetchIndex].
  intros Hshort. unfold PAGE_SIZE in *.
  destruct Hfull as [? | Hend]; [lia |]. split; [exact Hend |].
  unfold pageOf, PAGE_SIZE, rendered in *.
  assert (slice ids startIndex next = drop startIndex ids) as Hslice.
  { unfold slice. apply take_ge. rewrite length_drop. lia. }
  rewrite Hslice in *. apply take_ge.
  rewrite length_take in Hshort. lia.
Qed.

Lemma answer_aborted (net : Upstream) (ids : list Z) :
  live (answer net (mkSignal true) <$> ids) = [].
Proof.
  induction ids as [| id ids IH]; [reflexivity |].
  rewrite fmap_cons, answer_eq. exact IH.
Qed.

(** X5: with an aborted signal nothing rejects and nothing is kept: the
    batch fetch resolves with no item, the page fetch with the empty page and
    a cursor that is not before the starting index and is at or past the end
    of the id list, and the tree builder with the empty forest. *)
Theorem aborted_fetches_resolve_empty (net : Upstream) (ids : list Z) :
  (forall maxItems,
     result (fetchItemsByIds net ids (mkSignal true) maxItems) = Resolved []) /\
  (forall section startIndex, exists next,
     result (fetchFeedPage net ids section startIndex (mkSignal true))
       = Resolved (mkPage [] next) /\
     startIndex <= next /\ length ids <= next) /\
  (forall depth,
     result (buildCommentTree net ids (mkSignal true) depth) = Resolved []).
Proof.
  split; [| split].
  - intros maxItems. rewrite fetchItemsByIds_result, answer_aborted.
    by rewrite take_nil.
  - intros section startIndex.
    destruct (fetchFeedPage_spec net (mkSignal true) ids section startIndex)
      as (next & Hres & Hle & Hfull).
    assert (pageOf net (mkSignal true) ids section startIndex next = []) as Hnil.
    { unfold pageOf. rewrite answer_aborted. reflexivity. }
    rewrite Hnil in *. exists next. split; [exact Hres |]. split; [exact Hle |].
    destruct Hfull as [Hlen | ?]; [discriminate Hlen | done].
  - intros depth. rewrite buildCommentTree_result.
    destruct (MAX_COMMENT_DEPTH - depth) as [| budget]; [reflexivity |].
    cbn [commentForest].
    assert (omap isValidComment
              (answer net (mkSignal true) <$> take MAX_CHILDREN_PER_LEVEL ids) = [])
      as ->; [| reflexivity].
    induction (take MAX_CHILDREN_PER_LEVEL ids) as [| id l IH]; [reflexivity |].
    rewrite fmap_cons, answer_eq. exact IH.
Qed.

Lemma shouldRender_not_suppressed (item : HNItem) (section : FeedSection) :
  shouldRenderInSection item section = true -> suppressed item = false.
Proof.
  unfold shouldRenderInSection, suppressed.
  destruct (truthy (item_dead item)), (truthy (item_deleted item)); cbn;
    congruence.
Qed.

Section AllQualify.

Context (net : Upstream) (signal : AbortSignal) (section : FeedSection).

(** Every id of the list is answered with an item that is rendered in the
    section. *)
Let allQualify (ids : list Z) : Prop :=
  forall id, id ∈ ids ->
    exists item, answer net signal id = Some item /\
                 shouldRenderInSection item section = true.

Lemma allQualify_rendered (ids : list Z) :
  allQualify ids ->
  Some <$> rendered section (live (answer net signal <$> ids))
    = answer net signal <$> ids.
Proof.
  induction ids as [| id ids IH]; intros Hall; [reflexivity |].
  destruct (Hall id ltac:(left)) as (item & Hanswer & Hrender).
  rewrite fmap_cons, Hanswer. unfold live. cbn [omap list_omap keepLive].
  rewrite (shouldRender_not_suppressed _ _ Hrender).
  unfold rendered. rewrite filter_cons, decide_True by (by rewrite Hrender).
  rewrite fmap_cons. f_equal. apply IH.
  intros id' Hin. apply Hall. by right.
Qed.

Lemma fetchFeedPage_loop_stop (ids : list Z) (fuel cursor : nat)
    (pageItems : list HNItem) :
  fuel <> 0 ->
  (cursor <? length ids) && (length pageItems <? PAGE_SIZE) = false ->
  fetchFeedPage_loop fuel net ids section signal cursor pageItems =
  ret (mkPage pageItems cursor).
Proof.
  intros Hfuel Hstop. destruct fuel as [| fuel]; [done |].
  cbn [fetchFeedPage_loop]. by rewrite Hstop.
Qed.

Lemma fetchFeedPage_allQualify (ids : list Z) (startIndex : nat) :
  allQualify ids ->
  exists items,
    result (fetchFeedPage net ids section startIndex signal) =
      Resolved (mkPage items
                  (if startIndex <? length ids then startIndex + PAGE_SIZE
                   else startIndex)) /\
    Some <$> items
      = answer net signal <$> slice ids startIndex (startIndex + PAGE_SIZE).
Proof.
  intros Hall. unfold fetchFeedPage. cbn [fetchFeedPage_loop].
  destruct (Nat.ltb_spec startIndex (length ids)) as [Hs | Hs]; cbn [andb length].
  - set (chunk := slice ids startIndex (startIndex + PAGE_SIZE)).
    assert (Hchunk : length chunk = PAGE_SIZE `min` (length ids - startIndex)).
    { unfold chunk, slice. rewrite length_take, length_drop. f_equal. lia. }
    assert (Hsub : allQualify chunk).
    { intros id Hin. apply Hall. unfold chunk, slice in Hin.
      eapply sublist_subseteq; [| exact Hin].
      etransitivity; [apply sublist_take | apply sublist_drop]. }
    pose proof (allQualify_rendered chunk Hsub) as Hren.
    assert (Hlen : length (rendered section (live (answer net signal <$> chunk)))
                   = length chunk).
    { rewrite <- (length_fmap Some), Hren. by rewrite length_fmap. }
    change (0 <? PAGE_SIZE) with true. cbn match.
    destruct (Nat.eqb_spec (length chunk) 0) as [? | _];
      [unfold PAGE_SIZE in *; lia |].
    destruct (fetchItemsByIds net chunk signal (Some (length chunk)))
      as [p l] eqn:Efetch.
    pose proof (fetchItemsByIds_result net signal chunk (Some (length chunk))) as Hr.
    rewrite Efetch in Hr. cbn [result fst default] in Hr. subst p.
    rewrite take_ge
      by (etransitivity; [apply length_live_le | by rewrite length_fmap]).
    rewrite bind_resolved. cbn [result fst].
    rewrite pushRendered_eq by (cbn; unfold PAGE_SIZE; lia).
    cbn [app length]. rewrite Nat.sub_0_r.
    rewrite take_ge by (rewrite Hlen, Hchunk; lia).
    exists (rendered section (live (answer net signal <$> chunk))).
    split; [| exact Hren].
    assert (Hstop : (startIndex + PAGE_SIZE <? length ids)
                    && (length (rendered section (live (answer net signal <$> chunk)))
                        <? PAGE_SIZE) = false).
    { rewrite Hlen, Hchunk. apply andb_false_iff.
      destruct (Nat.ltb_spec (startIndex + PAGE_SIZE) (length ids)) as [Hmore | ?];
        [right | by left].
      apply Nat.ltb_ge. lia. }
    assert (Hne : length ids <> 0) by lia.
    by rewrite (fetchFeedPage_loop_stop _ _ _ _ Hne Hstop).
  - exists []. split; [reflexivity |].
    unfold slice. rewrite drop_ge by lia. by rewrite take_nil.
Qed.

Lemma chainedPages_allQualify (ids : list Z) (n startIndex : nat) :
  allQualify ids ->
  exists pages,
    result (chainedPages (replicate n net) ids section startIndex signal)
      = Resolved pages /\
    Some <$> concat (page_items <$> pages)
      = answer net signal <$> slice ids startIndex (startIndex + PAGE_SIZE * n).
Proof.
  intros Hall. revert startIndex.
  induction n as [| n IH]; intros startIndex.
  - exists []. split; [reflexivity |].
    by rewrite Nat.mul_0_r, Nat.add_0_r, slice_nil.
  - destruct (fetchFeedPage_allQualify ids startIndex Hall) as (items & Hpage & Hitems).
    cbn [replicate chainedPages]. rewrite result_bind, Hpage, result_bind.
    cbn [page_nextFetchIndex].
    destruct (Nat.ltb_spec startIndex (length ids)) as [Hs | Hs].
    + destruct (IH (startIndex + PAGE_SIZE)) as (rest & -> & Hrest).
      eexists. split; [reflexivity |].
      rewrite fmap_cons. cbn [concat page_items].
      rewrite fmap_app, Hitems, Hrest, <- fmap_app, slice_app by lia.
      by replace (startIndex + PAGE_SIZE + PAGE_SIZE * n)
        with (startIndex + PAGE_SIZE * S n) by lia.
    + destruct (IH startIndex) as (rest & -> & Hrest).
      eexists. split; [reflexivity |].
      rewrite fmap_cons. cbn [concat page_items].
      rewrite fmap_app, Hitems, Hrest, <- fmap_app.
      unfold slice. rewrite !drop_ge by lia. by rewrite !take_nil.
Qed.

End AllQualify.

(** X6: over an id list whose every id is answered with an item that is
    rendered in the section, a chain of [n] page fetches returns the answers
    to the ids from the starting index to [startIndex + 30 * n], in order:
    no id is skipped and none is repeated. *)
Theorem chained_pages_cover_qualifying_list (net : Upstream) (signal : AbortSignal)
    (section : FeedSection) (ids : list Z) (n startIndex : nat) :
  (forall id, id ∈ ids ->
     exists item, answer net signal id = Some item /\
                  shouldRenderInSection item section = true) ->
  exists pages,
    result (chainedPages (replicate n net) ids section startIndex signal)
      = Resolved pages /\
    Some <$> concat (page_items <$> pages)
      = answer net signal <$> slice ids startIndex (startIndex + 30 * n).
Proof. apply chainedPages_allQualify. Qed.

(** X6 on two pages over three stories. *)
Lemma chained_pages_cover_qualifying_list_witness :
  exists pages,
    result (chainedPages (replicate 2 storiesUpstream) [3; 1; 2]%Z STop 0 notAborted)
      = Resolved pages /\
    Some <$> concat (page_items <$> pages)
      = answer storiesUpstream notAborted <$> slice [3; 1; 2]%Z 0 (0 + 30 * 2).
Proof.
  apply chained_pages_cover_qualifying_list.
  intros id _. eexists. split; reflexivity.
Defined.

(** ** Comment tree: requests and contents *)

Lemma length_concat_le {A} (ls : list (list A)) (n b : nat) :
  length ls <= n -> Forall (fun l => length l <= b) ls ->
  length (concat ls) <= n * b.
Proof.
  revert n. induction ls as [| l ls IH]; intros n Hn Hall; cbn [concat length].
  - lia.
  - apply Forall_cons in Hall as [Hl Hls]. cbn [length] in Hn.
    rewrite length_app. destruct n as [| n]; [lia |].
    specialize (IH n ltac:(lia) Hls). lia.
Qed.

Lemma buildCommentTree_fuel_calls (net : Upstream) (signal : AbortSignal)
    (fuel : nat) (ids : list Z) (depth : nat) :
  length (calls (buildCommentTree_fuel fuel net ids signal depth))
    <= requestBound (MAX_COMMENT_DEPTH - depth).
Proof.
  revert ids depth. induction fuel as [| fuel IH]; intros ids depth; [cbn; lia |].
  cbn [buildCommentTree_fuel].
  destruct (Nat.leb_spec MAX_COMMENT_DEPTH depth) as [Hd | Hd]; cbn [orb];
    [cbn; lia |].
  destruct (length ids =? 0); [cbn; lia |].
  rewrite Promise_all_items, bind_resolved. cbn [calls snd].
  replace (MAX_COMMENT_DEPTH - depth) with (S (MAX_COMMENT_DEPTH - (depth + 1)))
    by lia.
  cbn [requestBound]. rewrite length_app, length_fmap.
  apply Nat.add_le_mono.
  { unfold slice. rewrite length_take. lia. }
  rewrite calls_bind.
  match goal with
  | |- length (match ?r with _ => _ end) <= _ =>
      transitivity (length (calls (Promise_all
        ((fun item =>
            bind (buildCommentTree_fuel fuel net (default [] (item_kids item))
                    signal (depth + 1))
              (fun children => ret (Node item children)))
         <$> omap isValidComment
               (answer net signal <$> slice ids 0 MAX_CHILDREN_PER_LEVEL)))));
        [destruct r; cbn [ret calls snd]; rewrite ?app_nil_r; reflexivity |]
  end.
  unfold Promise_all. cbn [calls snd].
  apply length_concat_le.
  - rewrite !length_fmap.
    etransitivity; [apply length_omap_le |].
    rewrite length_fmap. unfold slice. rewrite length_take. lia.
  - apply Forall_fmap, Forall_fmap, Forall_forall. intros item _. cbn.
    rewrite calls_bind.
    specialize (IH (default [] (item_kids item)) (depth + 1)).
    destruct (result _); cbn [ret calls snd]; rewrite ?app_nil_r; exact IH.
Qed.

Lemma requestBound_mono (n m : nat) : n <= m -> requestBound n <= requestBound m.
Proof.
  induction 1 as [| m _ IH]; [reflexivity |].
  etransitivity; [exact IH |]. clear IH.
  induction m as [| m IHm]; cbn [requestBound]; [lia |].
  apply Nat.add_le_mono_l, Nat.mul_le_mono_l, IHm.
Qed.

(** X7: the number of requests of the tree builder is bounded whatever
    upstream answers: at most 10 per call and at most 10 nested calls per
    call over [5 - depth] levels, so at most 111110 for a whole tree. *)
Theorem buildCommentTree_request_bound (net : Upstream) (ids : list Z)
    (signal : AbortSignal) (depth : nat) :
  length (calls (buildCommentTree net ids signal depth))
    <= requestBound (MAX_COMMENT_DEPTH - depth) /\
  requestBound (MAX_COMMENT_DEPTH - depth) <= requestBound 5 /\
  Z.of_nat (requestBound 5) = 111110%Z.
Proof.
  split; [apply buildCommentTree_fuel_calls |].
  split; [apply requestBound_mono; unfold MAX_COMMENT_DEPTH; lia |].
  vm_compute. reflexivity.
Qed.

Lemma validComment_ids_sublist (net : Upstream) (signal : AbortSignal) (ids : list Z) :
  faithful net ->
  (item_id <$> omap isValidComment (answer net signal <$> ids)) `sublist_of` ids.
Proof.
  intros Hf. induction ids as [| id ids IH]; [constructor |].
  rewrite fmap_cons. cbn [omap list_omap].
  destruct (answer net signal id) as [item |] eqn:E; cbn [isValidComment].
  - destruct (_ && _ && _); csimpl.
    + rewrite (answer_faithful _ _ _ _ Hf E). by constructor.
    + by constructor.
  - by constructor.
Qed.

Lemma commentForest_roots (net : Upstream) (signal : AbortSignal) (budget : nat)
    (ids : list Z) :
  node_item <$> commentForest (S budget) net signal ids =
  omap isValidComment (answer net signal <$> take MAX_CHILDREN_PER_LEVEL ids).
Proof.
  cbn [commentForest]. rewrite <- list_fmap_compose. apply list_fmap_id.
Qed.

(** X8: every node of a comment tree, at every level, is of type comment;
    and with an upstream that answers each id with an item of that id, the
    ids of the roots are a subsequence of the first 10 ids asked for and the
    ids of the children of each node are a subsequence of the first 10 of
    its [kids]: the order of the replies is kept. *)
Theorem buildCommentTree_comments_in_order (net : Upstream) (ids : list Z)
    (signal : AbortSignal) (depth : nat) :
  exists forest,
    result (buildCommentTree net ids signal depth) = Resolved forest /\
    (forall d n, occurs_at forest depth d n ->
       item_type (node_item n) = Some TComment) /\
    (faithful net ->
     (item_id ∘ node_item <$> forest) `sublist_of` take 10 ids /\
     forall d n, occurs_at forest depth d n ->
       (item_id ∘ node_item <$> children n)
         `sublist_of` take 10 (default [] (item_kids (node_item n)))).
Proof.
  assert (Hroots : forall budget l,
    faithful net ->
    (item_id ∘ node_item <$> commentForest budget net signal l)
      `sublist_of` take 10 l).
  { intros [| budget] l Hf; [apply sublist_nil_l |].
    rewrite list_fmap_compose, commentForest_roots.
    by apply validComment_ids_sublist. }
  eexists. split; [apply buildCommentTree_result |]. split.
  - intros d n Hocc.
    apply occurs_at_commentForest in Hocc as (_ & _ & ids' & Hin).
    apply commentForest_root in Hin as (budget' & item & _ & -> & Hvalid & _).
    by apply isValidComment_Some in Hvalid as [? _].
  - intros Hf. split; [by apply Hroots |].
    intros d n Hocc.
    apply occurs_at_commentForest in Hocc as (_ & _ & ids' & Hin).
    apply commentForest_root in Hin as (budget' & item & _ & -> & _).
    cbn [children node_item]. by apply Hroots.
Qed.

(** ** Id-list resolver: failures, and the past feed *)

(** How [fetchJson] settles on what upstream answers to the request. *)
Lemma fetchJson_eq {T} (e : Endpoint T) (signal : AbortSignal) :
  fetchJson e signal =
  (if aborted signal then Rejected AbortError
   else match outcome e with
        | NetworkFailure => Rejected NetworkError
        | Responded r =>
            if ok r then
              match body r with
              | Some v => Resolved v
              | None => Rejected SyntaxError
              end
            else Rejected (RequestFailed (status r))
        end,
   [url e]).
Proof.
  unfold fetchJson, fetch, json.
  destruct (aborted signal); [reflexivity |].
  destruct (outcome e) as [| r]; [reflexivity |]. cbn [bind].
  destruct (ok r); cbn [negb]; [| reflexivity].
  destruct (body r); reflexivity.
Qed.

(** X9: the resolver makes at most one request and neither retries nor
    hides a failure: for a category with a list endpoint it rejects with
    the abort error on an aborted signal, with the network error when no
    response arrives, with "Request failed (status)" on a status outside
    200-299 and with a syntax error on a body that is not JSON, and it
    resolves only on a success response with a JSON body. *)
Theorem fetchStoryIds_failures (net : Upstream) (section : FeedSection)
    (signal : AbortSignal) :
  length (calls (fetchStoryIds net section signal)) <= 1 /\
  (section <> SSubmit -> section <> SComments ->
   fetchStoryIds net section signal =
   (if aborted signal then Rejected AbortError
    else match up_list net (fetchStoryIds_endpoint section) with
         | NetworkFailure => Rejected NetworkError
         | Responded r =>
             if ok r then
               match body r with
               | Some entries => Resolved (numericIds entries)
               | None => Rejected SyntaxError
               end
             else Rejected (RequestFailed (status r))
         end,
    [ListUrl (fetchStoryIds_endpoint section)])) /\
  fetchStoryIds net SComments signal =
  (if aborted signal then Rejected AbortError
   else match up_updates net with
        | NetworkFailure => Rejected NetworkError
        | Responded r =>
            if ok r then
              match body r with
              | Some updates =>
                  Resolved (numericIds (default [] (updates_items updates)))
              | None => Rejected SyntaxError
              end
            else Rejected (RequestFailed (status r))
        end,
   [UpdatesUrl]).
Proof.
  assert (Hlist : section <> SSubmit -> section <> SComments ->
    fetchStoryIds net section signal =
    bind (fetchJson (listEndpoint net (fetchStoryIds_endpoint section)) signal)
      (fun storyIds => ret (numericIds storyIds)))
    by (by destruct section).
  assert (Hcomments : fetchStoryIds net SComments signal =
    bind (fetchJson (updatesEndpoint net) signal)
      (fun updates => ret (numericIds (default [] (updates_items updates)))))
    by reflexivity.
  rewrite fetchJson_eq in Hlist. rewrite fetchJson_eq in Hcomments.
  cbn [listEndpoint updatesEndpoint outcome url] in Hlist, Hcomments.
  split; [| split].
  - destruct (decide (section = SSubmit)) as [-> | Hsub]; [cbn; lia |].
    destruct (decide (section = SComments)) as [-> | Hcom].
    + rewrite Hcomments. by repeat case_match.
    + rewrite (Hlist Hsub Hcom). by repeat case_match.
  - intros Hsub Hcom. rewrite (Hlist Hsub Hcom).
    repeat case_match; reflexivity.
  - rewrite Hcomments. repeat case_match; reflexivity.
Qed.

Lemma bind_ext {A B} (m : Async A) (k k' : A -> Async B) :
  (forall a, k a = k' a) -> bind m k = bind m k'.
Proof. intros Hk. destruct m as [[a | e |] l]; cbn; by rewrite ?Hk. Qed.

Lemma pushRendered_past (fetchedItems pageItems : list HNItem) :
  pushRendered fetchedItems SPast pageItems = pushRendered fetchedItems STop pageItems.
Proof.
  revert pageItems. induction fetchedItems as [| item rest IH]; intros pageItems;
    [reflexivity |].
  cbn [pushRendered].
  change (shouldRenderInSection item SPast) with (shouldRenderInSection item STop).
  by rewrite !IH.
Qed.

Lemma fetchFeedPage_loop_past (net : Upstream) (ids : list Z) (signal : AbortSignal)
    (fuel cursor : nat) (pageItems : list HNItem) :
  fetchFeedPage_loop fuel net ids SPast signal cursor pageItems =
  fetchFeedPage_loop fuel net ids STop signal cursor pageItems.
Proof.
  revert cursor pageItems. induction fuel as [| fuel IH]; intros cursor pageItems;
    [reflexivity |].
  cbn [fetchFeedPage_loop].
  destruct (_ && _); [| reflexivity].
  destruct (_ =? 0); [reflexivity |].
  apply bind_ext. intros fetchedItems. by rewrite pushRendered_past, IH.
Qed.

(** X10: the past feed is the top feed read from index 30: both categories
    resolve their ids with the same request and the same result, a page of
    one equals the page of the other from the same index (same requests, same
    items, same cursor), and only the index of the first page differs. *)
Theorem past_feed_is_top_feed (net : Upstream) (ids : list Z) (startIndex : nat)
    (signal : AbortSignal) :
  fetchStoryIds net SPast signal = fetchStoryIds net STop signal /\
  fetchFeedPage net ids SPast startIndex signal
    = fetchFeedPage net ids STop startIndex signal /\
  loadFeed_startIndex SPast = loadFeed_startIndex STop + 30.
Proof.
  split; [reflexivity |]. split; [apply fetchFeedPage_loop_past | reflexivity].
Qed.

(** ** Session cache: other keys, repeated reads, overwrites *)

(** X11: a cache read touches no other key and adds nothing: a key that is
    not in the cache is reported absent and the cache is left as it is; the
    entries of the other keys are the same after the read; the read reports
    absent exactly when it leaves no entry for the key; a repeated read at
    the same time gives the same answer and changes nothing more; and once a
    read has reported absent, every read after it does until a write. *)
Theorem readTimedCache_frame {K T} `{Countable K} (cache : gmap K (TimedValue T))
    (key : K) (maxAgeMs now : Z) :
  (cache !! key = None -> readTimedCache cache key maxAgeMs now = (None, cache)) /\
  (forall key', key' <> key ->
     snd (readTimedCache cache key maxAgeMs now) !! key' = cache !! key') /\
  (forall key' entry,
     snd (readTimedCache cache key maxAgeMs now) !! key' = Some entry ->
     cache !! key' = Some entry) /\
  (fst (readTimedCache cache key maxAgeMs now) = None <->
   snd (readTimedCache cache key maxAgeMs now) !! key = None) /\
  readTimedCache (snd (readTimedCache cache key maxAgeMs now)) key maxAgeMs now
    = readTimedCache cache key maxAgeMs now /\
  (forall maxAgeMs' later,
     fst (readTimedCache cache key maxAgeMs now) = None ->
     readTimedCache (snd (readTimedCache cache key maxAgeMs now)) key maxAgeMs' later
       = (None, snd (readTimedCache cache key maxAgeMs now))).
Proof.
  unfold readTimedCache.
  destruct (cache !! key) as [entry |] eqn:Hentry.
  - destruct (Z.ltb_spec maxAgeMs (now - createdAt entry)); cbn [fst snd].
    + rewrite lookup_delete_eq.
      split; [done |]. split; [intros key' Hne; by apply lookup_delete_ne |].
      split; [intros key' e [_ He]%lookup_delete_Some; exact He |].
      split; [done |]. split; [done |]. done.
    + split; [done |]. split; [done |]. split; [done |].
      split; [by rewrite Hentry |]. split; [| done].
      rewrite Hentry.
      by destruct (Z.ltb_spec maxAgeMs (now - createdAt entry)); [lia |].
  - cbn [fst snd]. rewrite ?Hentry.
    split; [done |]. split; [done |]. split; [done |].
    split; [done |]. split; [done |]. done.
Qed.

(** X12: a cache write replaces the entry of its key and no other: the
    entries of the other keys are untouched, of two writes to a key the
    later one stays, a read right after the write returns the value for any
    non-negative TTL, and a read of another key is not affected by the write
    (it gives the same answer and evicts the same entry as without it). *)
Theorem writeTimedCache_frame {K T} `{Countable K} (cache : gmap K (TimedValue T))
    (key : K) (v : T) (now : Z) :
  (forall key', key' <> key ->
     writeTimedCache cache key v now !! key' = cache !! key') /\
  (forall v0 earlier,
     writeTimedCache (writeTimedCache cache key v0 earlier) key v now
       = writeTimedCache cache key v now) /\
  (forall maxAgeMs, (0 <= maxAgeMs)%Z ->
     readTimedCache (writeTimedCache cache key v now) key maxAgeMs now
       = (Some v, writeTimedCache cache key v now)) /\
  (forall key' maxAgeMs later, key' <> key ->
     readTimedCache (writeTimedCache cache key v now) key' maxAgeMs later
       = (fst (readTimedCache cache key' maxAgeMs later),
          writeTimedCache (snd (readTimedCache cache key' maxAgeMs later)) key v now)).
Proof.
  unfold writeTimedCache. split; [| split; [| split]].
  - intros key' Hne. by apply lookup_insert_ne.
  - intros v0 earlier. apply insert_insert_eq.
  - intros maxAgeMs Hpos. unfold readTimedCache. rewrite lookup_insert_eq.
    cbn [createdAt value].
    by destruct (Z.ltb_spec maxAgeMs (now - now)); [lia |].
  - intros key' maxAgeMs later Hne. unfold readTimedCache.
    rewrite lookup_insert_ne by done.
    destruct (cache !! key') as [entry |]; [| reflexivity].
    destruct (_ <? _)%Z; cbn [fst snd]; [| reflexivity].
    by rewrite delete_insert_ne.
Qed.

(** ** The feed view *)

(** X13: a refresh that ends ready is what the next load shows for as long
    as the entry is fresh: a [loadFeed] started within 60 s of the write,
    without forcing, restores the same view state from the cache and leaves
    the cache as it is, whatever upstream would answer and whatever the view
    held. *)
Theorem loadFeed_served_from_cache (net net' : Upstream) (section : FeedSection)
    (sig sig' : nat -> AbortSignal) (clock clock' : nat -> Z)
    (st st' : FeedViewState) (cache : gmap FeedSection (TimedValue FeedSnapshot)) :
  fv_loadState (fst (loadFeed net section true sig clock st cache)) = Ready ->
  (clock' 0%nat - clock 3%nat <= FEED_CACHE_TTL_MS)%Z ->
  loadFeed net' section false sig' clock' st'
    (snd (loadFeed net section true sig clock st cache))
  = loadFeed net section true sig clock st cache.
Proof.
  intros Hready Hfresh.
  destruct (decide (section = SSubmit)) as [-> | Hsection]; [reflexivity |].
  assert (Hcommit : exists allIds items next,
    loadFeed net section true sig clock st cache =
    (mkFeedView allIds items Ready None next,
     writeTimedCache cache section (mkFeedSnapshot allIds items next) (clock 3))).
  { revert Hready. unfold loadFeed, loadFeed_catch.
    destruct section; try done; cbn [negb];
      repeat case_match; cbn; try discriminate; eauto. }
  destruct Hcommit as (allIds & items & next & ->). cbn [snd].
  unfold loadFeed at 1.
  assert (Hread : readTimedCache
    (writeTimedCache cache section (mkFeedSnapshot allIds items next) (clock 3))
    section FEED_CACHE_TTL_MS (clock' 0) =
    (Some (mkFeedSnapshot allIds items next),
     writeTimedCache cache section (mkFeedSnapshot allIds items next) (clock 3))).
  { unfold readTimedCache, writeTimedCache. rewrite lookup_insert_eq.
    cbn [createdAt value].
    by destruct (Z.ltb_spec FEED_CACHE_TTL_MS (clock' 0%nat - clock 3%nat)); [lia |]. }
  destruct section; try done; cbn [negb]; by rewrite Hread.
Qed.

(** X13 on the top feed, reloaded 30 s after a refresh from an upstream
    that no longer answers. *)
Lemma loadFeed_served_from_cache_witness :
  loadFeed notFoundUpstream STop false (fun _ => notAborted)
    (fun p => (33000 + secondsClock p)%Z) initialFeedView
    (snd (loadFeed feedUpstream STop true (fun _ => notAborted) secondsClock
            initialFeedView ∅))
  = loadFeed feedUpstream STop true (fun _ => notAborted) secondsClock
      initialFeedView ∅.
Proof.
  apply loadFeed_served_from_cache.
  - vm_compute. reflexivity.
  - vm_compute. discriminate.
Defined.

(** X14: [loadFeed] keeps nothing of a cancelled load.  Once the signal is
    aborted when the id list arrives, the outcome is the same whatever
    upstream answered; aborted when the first page arrives, the view is left
    in the loading state it entered before the first request and the cache
    is the one the operation found (after its own read). *)
Theorem loadFeed_discards_cancelled_load (net : Upstream) (section : FeedSection)
    (forceFresh : bool) (sig : nat -> AbortSignal) (clock : nat -> Z)
    (st : FeedViewState) (cache : gmap FeedSection (TimedValue FeedSnapshot)) :
  (aborted (sig 1) = true ->
   forall net',
     loadFeed net' section forceFresh sig clock st cache
     = loadFeed net section forceFresh sig clock st cache) /\
  (aborted (sig 3) = true ->
   section <> SSubmit ->
   (forceFresh = true \/ cache !! section = None) ->
   forall allIds,
     result (fetchStoryIds net section (sig 0)) = Resolved allIds ->
     loadFeed net section forceFresh sig clock st cache
     = (mkFeedView [] [] Loading None (fv_nextFetchIndex st), cache)).
Proof.
  split.
  - intros Hab net'. unfold loadFeed, loadFeed_catch. rewrite Hab.
    destruct section; try reflexivity;
      (destruct (if negb forceFresh then _ else _) as [[snap |] cache'];
       [reflexivity |]);
      by repeat case_match.
  - intros Hab Hsection Hmiss allIds Hids.
    assert (Hread : (if negb forceFresh
                     then readTimedCache cache section FEED_CACHE_TTL_MS (clock 0)
                     else (None, cache)) = (None, cache)).
    { destruct Hmiss as [-> | Hnone]; [reflexivity |].
      destruct forceFresh; [reflexivity |].
      unfold readTimedCache. by rewrite Hnone. }
    unfold loadFeed, loadFeed_catch.
    destruct section; try done; rewrite Hread, Hids, Hab; by repeat case_match.
Qed.

(** X15: a feed load fails only through its id list.  When the id list
    arrives and the load is not cancelled, the view ends ready with that id
    list and a page, and the snapshot is cached, however many of the item
    requests failed; when the id list request is rejected, the view shows
    that error with no items and a refresh leaves the cache untouched. *)
Theorem loadFeed_fails_only_on_id_list (net : Upstream) (section : FeedSection)
    (sig : nat -> AbortSignal) (clock : nat -> Z)
    (st : FeedViewState) (cache : gmap FeedSection (TimedValue FeedSnapshot)) :
  section <> SSubmit ->
  aborted (sig 1) = false ->
  aborted (sig 3) = false ->
  (forall allIds,
     result (fetchStoryIds net section (sig 0)) = Resolved allIds ->
     exists page,
       result (fetchFeedPage net allIds section (loadFeed_startIndex section) (sig 2))
         = Resolved page /\
       loadFeed net section true sig clock st cache =
       (mkFeedView allIds (page_items page) Ready None (page_nextFetchIndex page),
        writeTimedCache cache section
          (mkFeedSnapshot allIds (page_items page) (page_nextFetchIndex page))
          (clock 3))) /\
  (forall error,
     result (fetchStoryIds net section (sig 0)) = Rejected error ->
     loadFeed net section true sig clock st cache =
     (mkFeedView [] [] Failed (Some error) (fv_nextFetchIndex st), cache)).
Proof.
  intros Hsection Hsig1 Hsig3. split.
  - intros allIds Hids.
    destruct (fetchFeedPage_spec net (sig 2) allIds section
                (loadFeed_startIndex section)) as (next & Hpage & _).
    eexists. split; [exact Hpage |].
    unfold loadFeed. destruct section; try done; cbn [negb];
      by rewrite Hids, Hsig1, Hpage, Hsig3.
  - intros error Hids. unfold loadFeed, loadFeed_catch.
    destruct section; try done; cbn [negb]; by rewrite Hids, Hsig1.
Qed.

(** X15 on an upstream whose items all answer 404: the top feed still
    ends ready. *)
Lemma loadFeed_fails_only_on_id_list_witness :
  (forall allIds,
     result (fetchStoryIds
               (mkUpstream (up_item notFoundUpstream) (up_list feedUpstream)
                  (up_updates feedUpstream)) STop notAborted) = Resolved allIds ->
     exists page,
       result (fetchFeedPage
                 (mkUpstream (up_item notFoundUpstream) (up_list feedUpstream)
                    (up_updates feedUpstream)) allIds STop (loadFeed_startIndex STop)
                 notAborted) = Resolved page /\
       loadFeed
         (mkUpstream (up_item notFoundUpstream) (up_list feedUpstream)
            (up_updates feedUpstream)) STop true (fun _ => notAborted) secondsClock
         initialFeedView ∅ =
       (mkFeedView allIds (page_items page) Ready None (page_nextFetchIndex page),
        writeTimedCache ∅ STop
          (mkFeedSnapshot allIds (page_items page) (page_nextFetchIndex page))
          (secondsClock 3))) /\
  (forall error,
     result (fetchStoryIds
               (mkUpstream (up_item notFoundUpstream) (up_list feedUpstream)
                  (up_updates feedUpstream)) STop notAborted) = Rejected error ->
     loadFeed
       (mkUpstream (up_item notFoundUpstream) (up_list feedUpstream)
          (up_updates feedUpstream)) STop true (fun _ => notAborted) secondsClock
       initialFeedView ∅ =
     (mkFeedView [] [] Failed (Some error) (fv_nextFetchIndex initialFeedView), ∅)).
Proof.
  apply (loadFeed_fails_only_on_id_list
           (mkUpstream (up_item notFoundUpstream) (up_list feedUpstream)
              (up_updates feedUpstream)) STop (fun _ => notAborted) secondsClock
           initialFeedView ∅); [discriminate | reflexivity | reflexivity].
Defined.

Lemma mergePage_appends (pageItems : list HNItem) (seen : gset Z)
    (mergedItems : list HNItem) :
  exists appended,
    mergePage pageItems seen mergedItems = mergedItems ++ appended /\
    appended `sublist_of` pageItems /\
    forall item, item ∈ appended -> item_id item ∉ seen.
Proof.
  revert seen mergedItems.
  induction pageItems as [| item rest IH]; intros seen mergedItems;
    cbn [mergePage].
  - exists []. rewrite app_nil_r. split; [done |]. split; [constructor |].
    by intros ? ?%elem_of_nil.
  - case_bool_decide as Hin.
    + destruct (IH seen mergedItems) as (appended & -> & Hsub & Hnew).
      exists appended. split; [done |]. split; [by constructor | done].
    + destruct (IH ({[item_id item]} ∪ seen) (mergedItems ++ [item]))
        as (appended & -> & Hsub & Hnew).
      exists (item :: appended). rewrite <- app_assoc.
      split; [done |]. split; [by constructor |].
      intros x [-> | Hx]%elem_of_cons; [done |].
      specialize (Hnew x Hx). set_solver.
Qed.

(** X16: loading more only appends: the items the view holds stay where
    they are, the appended items carry ids the view did not hold, the id
    list is kept and the cursor does not move back; ids that were distinct
    stay distinct; and with an upstream that answers each id with an item of
    that id the appended ids are a subsequence of the id list from the old
    cursor on. *)
Theorem handleLoadMore_appends (net : Upstream) (section : FeedSection)
    (loadingMore : bool) (sig : nat -> AbortSignal) (clock : nat -> Z)
    (st : FeedViewState) (cache : gmap FeedSection (TimedValue FeedSnapshot)) :
  exists appended,
    fv_items (fst (handleLoadMore net section loadingMore sig clock st cache))
      = fv_items st ++ appended /\
    (forall item, item ∈ appended -> item_id item ∉ (item_id <$> fv_items st)) /\
    fv_ids (fst (handleLoadMore net section loadingMore sig clock st cache))
      = fv_ids st /\
    fv_nextFetchIndex st
      <= fv_nextFetchIndex (fst (handleLoadMore net section loadingMore sig clock st cache)) /\
    (NoDup (item_id <$> fv_items st) ->
     NoDup (item_id <$>
              fv_items (fst (handleLoadMore net section loadingMore sig clock st cache)))) /\
    (faithful net ->
     (item_id <$> appended) `sublist_of` drop (fv_nextFetchIndex st) (fv_ids st)).
Proof.
  assert (Hsame : exists appended : list HNItem,
    fv_items st = fv_items st ++ appended /\
    (forall item, item ∈ appended -> item_id item ∉ (item_id <$> fv_items st)) /\
    fv_ids st = fv_ids st /\
    fv_nextFetchIndex st <= fv_nextFetchIndex st /\
    (NoDup (item_id <$> fv_items st) -> NoDup (item_id <$> fv_items st)) /\
    (faithful net ->
     (item_id <$> appended) `sublist_of` drop (fv_nextFetchIndex st) (fv_ids st))).
  { exists []. rewrite app_nil_r. split; [done |].
    split; [by intros ? ?%elem_of_nil |]. split; [done |]. split; [done |].
    split; [done |]. intros _. apply sublist_nil_l. }
  unfold handleLoadMore.
  destruct (_ || _ || _); [exact Hsame |].
  destruct (fetchFeedPage_spec net (sig 0) (fv_ids st) section (fv_nextFetchIndex st))
    as (next & -> & Hle & _).
  destruct (aborted (sig 1)); [exact Hsame |].
  cbn [fst fv_items fv_ids fv_nextFetchIndex page_items page_nextFetchIndex].
  destruct (mergePage_appends
    (pageOf net (sig 0) (fv_ids st) section (fv_nextFetchIndex st) next)
    (list_to_set (item_id <$> fv_items st)) (fv_items st))
    as (appended & Hmerge & Hsub & Hnew).
  exists appended. split; [exact Hmerge |]. split.
  { intros item Hin Hold. apply (Hnew item Hin). by apply elem_of_list_to_set. }
  split; [done |]. split; [done |]. split.
  - intros Hnd. apply mergePage_NoDup; [| done].
    intros id Hid. by apply elem_of_list_to_set.
  - intros Hf.
    transitivity (item_id <$>
      pageOf net (sig 0) (fv_ids st) section (fv_nextFetchIndex st) next);
      [by apply fmap_sublist |].
    etransitivity; [by apply pageOf_ids_sublist |].
    unfold slice. apply sublist_take.
Qed.

(** X17: [handleLoadMore] does nothing while a load is running, when the
    view has no more ids to fetch ([hasMore] is false) and when its signal is
    aborted as the page arrives; otherwise it moves the cursor forward by
    at least one id, and whenever it changes anything it writes to the cache
    exactly the snapshot the view now holds. *)
Theorem handleLoadMore_guards (net : Upstream) (section : FeedSection)
    (loadingMore : bool) (sig : nat -> AbortSignal) (clock : nat -> Z)
    (st : FeedViewState) (cache : gmap FeedSection (TimedValue FeedSnapshot)) :
  (loadingMore = true \/ hasMore st = false \/ aborted (sig 1) = true ->
   handleLoadMore net section loadingMore sig clock st cache = (st, cache)) /\
  (loadingMore = false -> hasMore st = true -> aborted (sig 1) = false ->
   fv_nextFetchIndex st
     < fv_nextFetchIndex (fst (handleLoadMore net section loadingMore sig clock st cache))
   /\
   snd (handleLoadMore net section loadingMore sig clock st cache) =
   writeTimedCache cache section
     (mkFeedSnapshot
        (fv_ids (fst (handleLoadMore net section loadingMore sig clock st cache)))
        (fv_items (fst (handleLoadMore net section loadingMore sig clock st cache)))
        (fv_nextFetchIndex
           (fst (handleLoadMore net section loadingMore sig clock st cache))))
     (clock 1)).
Proof.
  assert (Hguard : (length (fv_ids st) =? 0)
                   || (length (fv_ids st) <=? fv_nextFetchIndex st)
                   = negb (hasMore st)).
  { unfold hasMore.
    destruct (Nat.eqb_spec (length (fv_ids st)) 0),
             (Nat.leb_spec (length (fv_ids st)) (fv_nextFetchIndex st)),
             (Nat.ltb_spec 0 (length (fv_ids st))),
             (Nat.ltb_spec (fv_nextFetchIndex st) (length (fv_ids st)));
      cbn; lia || reflexivity. }
  unfold handleLoadMore. rewrite <- orb_assoc, Hguard.
  destruct (fetchFeedPage_spec net (sig 0) (fv_ids st) section (fv_nextFetchIndex st))
    as (next & Hpage & Hle & Hfull).
  rewrite Hpage. split.
  - intros [-> | [-> | ->]]; [reflexivity | by rewrite orb_true_r |].
    by destruct (loadingMore || _).
  - intros -> Hmore ->. rewrite Hmore. cbn [orb negb fst snd].
    cbn [fv_ids fv_items fv_nextFetchIndex page_items page_nextFetchIndex].
    split; [| reflexivity].
    unfold hasMore in Hmore. apply andb_true_iff in Hmore as [_ Hcur%Nat.ltb_lt].
    destruct Hfull as [Hlen | ?]; [| lia].
    destruct (decide (next = fv_nextFetchIndex st)) as [-> | ?]; [| lia].
    unfold pageOf in Hlen. rewrite slice_nil in Hlen. discriminate Hlen.
Qed.

(** ** The post view and the user view *)

(** X18: what a visit to a post wrote is what the next visit shows: after a
    first visit (no entry for the post in the cache) that ended ready, a
    visit started within 120 s of the write ends in the same view state and
    leaves the cache as it is, whatever upstream would answer. *)
Theorem PostView_served_from_cache (net net' : Upstream) (postId : Z)
    (sig sig' : nat -> AbortSignal) (clock clock' : nat -> Z)
    (cache : gmap Z (TimedValue PostSnapshot)) :
  cache !! postId = None ->
  pv_loadState (fst (PostView_open net postId sig clock cache)) = Ready ->
  (clock' 0%nat - clock 3%nat <= POST_CACHE_TTL_MS)%Z ->
  PostView_open net' postId sig' clock' (snd (PostView_open net postId sig clock cache))
  = PostView_open net postId sig clock cache.
Proof.
  intros Hmiss Hready Hfresh.
  assert (Hcommit : exists item comments,
    PostView_open net postId sig clock cache =
    (mkPostView (Some item) comments Ready None,
     writeTimedCache cache postId (mkPostSnapshot item comments) (clock 3))).
  { revert Hready. unfold PostView_open, PostView_mount, readTimedCache.
    rewrite Hmiss. unfold PostView_effect, PostView_catch.
    repeat case_match; cbn; try discriminate; eauto. }
  destruct Hcommit as (item & comments & ->). cbn [snd].
  unfold PostView_open, PostView_mount, readTimedCache, writeTimedCache.
  rewrite lookup_insert_eq. cbn [createdAt value].
  by destruct (Z.ltb_spec POST_CACHE_TTL_MS (clock' 0%nat - clock 3%nat)); [lia |].
Qed.

(** X18 on the post 1 with its two replies, visited again after 30 s when
    upstream no longer answers. *)
Lemma PostView_served_from_cache_witness :
  PostView_open notFoundUpstream 1 (fun _ => notAborted)
    (fun p => (33000 + secondsClock p)%Z)
    (snd (PostView_open threadUpstream 1 (fun _ => notAborted) secondsClock ∅))
  = PostView_open threadUpstream 1 (fun _ => notAborted) secondsClock ∅.
Proof.
  apply PostView_served_from_cache.
  - reflexivity.
  - vm_compute. reflexivity.
  - vm_compute. discriminate.
Defined.

(** X19: a post view fails only through the post itself.  On a first visit
    that is not cancelled: when the post arrives the view ends ready and the
    post is cached with the forest the tree builder resolved with, however
    many reply requests failed; when upstream has no such item the view
    shows "Post not found." and when the request is rejected it shows that
    error, and in both cases nothing is cached. *)
Theorem PostView_fails_only_on_post (net : Upstream) (postId : Z)
    (sig : nat -> AbortSignal) (clock : nat -> Z)
    (cache : gmap Z (TimedValue PostSnapshot)) :
  cache !! postId = None ->
  aborted (sig 1) = false ->
  (forall item,
     result (fetchItemById net postId (sig 0)) = Resolved (Some item) ->
     exists comments,
       result (buildCommentTree net (default [] (item_kids item)) (sig 2) 0)
         = Resolved comments /\
       PostView_open net postId sig clock cache =
       (mkPostView (Some item) comments Ready None,
        writeTimedCache cache postId (mkPostSnapshot item comments) (clock 3))) /\
  (result (fetchItemById net postId (sig 0)) = Resolved None ->
   PostView_open net postId sig clock cache =
   (mkPostView None [] Failed (Some (ErrorMessage "Post not found.")), cache)) /\
  (forall error,
     result (fetchItemById net postId (sig 0)) = Rejected error ->
     PostView_open net postId sig clock cache =
     (mkPostView None [] Failed (Some error), cache)).
Proof.
  intros Hmiss Hsig.
  unfold PostView_open, PostView_mount, readTimedCache. rewrite Hmiss.
  unfold PostView_effect, PostView_catch. rewrite Hsig.
  split; [| split].
  - intros item ->. eexists. split; [apply buildCommentTree_result |].
    by rewrite buildCommentTree_result.
  - by intros ->.
  - by intros error ->.
Qed.

(** X19 on the post 1 of an upstream that answers every item with 404. *)
Lemma PostView_fails_only_on_post_witness :
  (forall item,
     result (fetchItemById notFoundUpstream 1 notAborted) = Resolved (Some item) ->
     exists comments,
       result (buildCommentTree notFoundUpstream (default [] (item_kids item))
                 notAborted 0) = Resolved comments /\
       PostView_open notFoundUpstream 1 (fun _ => notAborted) secondsClock ∅ =
       (mkPostView (Some item) comments Ready None,
        writeTimedCache ∅ 1%Z (mkPostSnapshot item comments) (secondsClock 3))) /\
  (result (fetchItemById notFoundUpstream 1 notAborted) = Resolved None ->
   PostView_open notFoundUpstream 1 (fun _ => notAborted) secondsClock ∅ =
   (mkPostView None [] Failed (Some (ErrorMessage "Post not found.")), ∅)) /\
  (forall error,
     result (fetchItemById notFoundUpstream 1 notAborted) = Rejected error ->
     PostView_open notFoundUpstream 1 (fun _ => notAborted) secondsClock ∅ =
     (mkPostView None [] Failed (Some error), ∅)).
Proof.
  apply (PostView_fails_only_on_post notFoundUpstream 1 (fun _ => notAborted)
           secondsClock ∅); reflexivity.
Defined.

Lemma lowerAscii_idemp (c : ascii) : lowerAscii (lowerAscii c) = lowerAscii c.
Proof.
  destruct c as [[] [] [] [] [] [] [] []]; reflexivity.
Qed.

Lemma toLowerCase_idemp (s : string) : toLowerCase (toLowerCase s) = toLowerCase s.
Proof.
  induction s as [| c s IH]; [reflexivity |].
  cbn [toLowerCase]. by rewrite lowerAscii_idemp, IH.
Qed.

(** X20: the user cache does not tell the spellings of a handle apart.
    After a first visit to a profile that ended ready, a visit within 300 s
    under any handle with the same lowercase form (the lowercase form itself
    included) is served from the cache: it shows the record fetched for the
    first spelling, whatever upstream would answer for the second, and
    leaves the cache as it is. *)
Theorem UserView_cache_ignores_case (users users' : string -> FetchOutcome UserPayload)
    (userId userId' : string) (sig sig' : nat -> AbortSignal) (clock clock' : nat -> Z)
    (cache : gmap string (TimedValue HNUser)) :
  toLowerCase userId' = toLowerCase userId ->
  cache !! toLowerCase userId = None ->
  uv_loadState (fst (UserView_open users userId sig clock cache)) = Ready ->
  (clock' 0%nat - clock 1%nat <= USER_CACHE_TTL_MS)%Z ->
  UserView_open users' userId' sig' clock'
    (snd (UserView_open users userId sig clock cache))
  = UserView_open users userId sig clock cache /\
  UserView_open users' (toLowerCase userId) sig' clock'
    (snd (UserView_open users userId sig clock cache))
  = UserView_open users userId sig clock cache.
Proof.
  intros Hcase Hmiss Hready Hfresh.
  assert (Hcommit : exists user,
    UserView_open users userId sig clock cache =
    (mkUserView (Some user) Ready None,
     writeTimedCache cache (toLowerCase userId) user (clock 1))).
  { revert Hready.
    unfold UserView_open, UserView_mount, UserView_cacheKey, readTimedCache.
    rewrite Hmiss. repeat case_match; cbn; try discriminate; eauto. }
  destruct Hcommit as (user & ->). cbn [snd].
  assert (Hhit : forall handle, toLowerCase handle = toLowerCase userId ->
    UserView_open users' handle sig' clock'
      (writeTimedCache cache (toLowerCase userId) user (clock 1)) =
    (mkUserView (Some user) Ready None,
     writeTimedCache cache (toLowerCase userId) user (clock 1))).
  { intros handle Hhandle.
    unfold UserView_open, UserView_mount, UserView_cacheKey, readTimedCache,
      writeTimedCache.
    rewrite Hhandle, lookup_insert_eq. cbn [createdAt value].
    by destruct (Z.ltb_spec USER_CACHE_TTL_MS (clock' 0%nat - clock 1%nat)); [lia |]. }
  split; apply Hhit; [exact Hcase | apply toLowerCase_idemp].
Qed.

(** X20 on the handles "PG" and "Pg". *)
Lemma UserView_cache_ignores_case_witness :
  UserView_open (fun _ => NetworkFailure) "Pg" (fun _ => notAborted)
    (fun p => (33000 + secondsClock p)%Z)
    (snd (UserView_open usersUpstream "PG" (fun _ => notAborted) secondsClock ∅))
  = UserView_open usersUpstream "PG" (fun _ => notAborted) secondsClock ∅ /\
  UserView_open (fun _ => NetworkFailure) (toLowerCase "PG") (fun _ => notAborted)
    (fun p => (33000 + secondsClock p)%Z)
    (snd (UserView_open usersUpstream "PG" (fun _ => notAborted) secondsClock ∅))
  = UserView_open usersUpstream "PG" (fun _ => notAborted) secondsClock ∅.
Proof.
  apply UserView_cache_ignores_case.
  - reflexivity.
  - reflexivity.
  - vm_compute. reflexivity.
  - vm_compute. discriminate.
Defined.

(** ** Navigation and formatting *)

(** X21: [normalizeSection] accepts exactly the seven names other than
    "top", spelled as in the union type, and maps every other value and a
    missing value to top; so it gives back the section whose name it is
    given, and the paths [sectionPath] builds for two different sections
    differ. *)
Theorem normalizeSection_inverts_names :
  (forall section, normalizeSection (Some (sectionName section)) = section) /\
  (forall v section,
     normalizeSection (Some v) = section -> section <> STop ->
     v = sectionName section) /\
  normalizeSection None = STop /\
  (forall section,
     section <> STop -> sectionPath section = "/?section=" +:+ sectionName section) /\
  (forall s1 s2, sectionPath s1 = sectionPath s2 -> s1 = s2).
Proof.
  split; [by intros [] |]. split; [| split; [reflexivity | split]].
  - intros v section. unfold normalizeSection.
    destruct (String.eqb_spec v "new") as [-> | _]; [by intros <- _ |].
    destruct (String.eqb_spec v "past") as [-> | _]; [by intros <- _ |].
    destruct (String.eqb_spec v "comments") as [-> | _]; [by intros <- _ |].
    destruct (String.eqb_spec v "ask") as [-> | _]; [by intros <- _ |].
    destruct (String.eqb_spec v "show") as [-> | _]; [by intros <- _ |].
    destruct (String.eqb_spec v "jobs") as [-> | _]; [by intros <- _ |].
    destruct (String.eqb_spec v "submit") as [-> | _]; [by intros <- _ |].
    intros <- Hne. by destruct Hne.
  - by intros [].
  - intros [] []; cbn; intros Heq; try reflexivity; discriminate Heq.
Qed.

(** X22: for a time [t] that is present and not 0, with [now] and
    [1000 * t] within the time values of a [Date], [formatRelativeAge] shows
    the age in whole seconds, minutes, hours or days, rounded down, in the
    largest unit that gives less than 60 seconds, 60 minutes or 24 hours
    (days have no larger unit); the number shown is at most 17280000000000;
    a time in the future counts as age 0; a missing time and the time 0
    both give "unknown". *)
Theorem formatRelativeAge_truncates (t now : Z) :
  t <> 0%Z ->
  (- MAX_TIME_VALUE <= now <= MAX_TIME_VALUE)%Z ->
  (- MAX_TIME_VALUE <= 1000 * t <= MAX_TIME_VALUE)%Z ->
  (exists n secs unit,
     formatRelativeAge (Some t) now = pretty n +:+ unit /\
     (0 <= n <= 17280000000000)%Z /\
     (n * secs <= Z.max 0 (now / 1000 - t) < (n + 1) * secs)%Z /\
     ((unit = "s ago" /\ secs = 1%Z /\ (n < 60)%Z) \/
      (unit = "m ago" /\ secs = 60%Z /\ (1 <= n < 60)%Z) \/
      (unit = "h ago" /\ secs = 3600%Z /\ (1 <= n < 24)%Z) \/
      (unit = "d ago" /\ secs = 86400%Z /\ (1 <= n)%Z))) /\
  formatRelativeAge None now = "unknown" /\
  formatRelativeAge (Some 0%Z) now = "unknown".
Proof.
  intros Ht Hnow Htime. split; [| split; reflexivity].
  unfold formatRelativeAge.
  destruct (Z.eqb_spec t 0) as [? | _]; [done |]. cbv zeta.
  remember (Z.max 0 (now / 1000 - t)) as diff eqn:Hdiff.
  assert (Hrange : (0 <= diff <= 17280000000000)%Z).
  { subst diff. unfold MAX_TIME_VALUE in *. Z.div_mod_to_equations. lia. }
  clear Hdiff Hnow Htime.
  destruct (Z.ltb_spec diff 60).
  { exists diff, 1%Z, "s ago". split; [done |]. split; [done |].
    split; [lia |]. left. done. }
  destruct (Z.ltb_spec (diff / 60) 60).
  { exists (diff / 60)%Z, 60%Z, "m ago". split; [done |].
    split; [(Z.div_mod_to_equations; lia) |].
    split; [(Z.div_mod_to_equations; lia) |]. right. left.
    split; [done |]. split; [done |]. (Z.div_mod_to_equations; lia). }
  destruct (Z.ltb_spec (diff / 60 / 60) 24).
  { exists (diff / 60 / 60)%Z, 3600%Z, "h ago". split; [done |].
    split; [(Z.div_mod_to_equations; lia) |].
    split; [(Z.div_mod_to_equations; lia) |]. right. right. left.
    split; [done |]. split; [done |]. (Z.div_mod_to_equations; lia). }
  exists (diff / 60 / 60 / 24)%Z, 86400%Z, "d ago". split; [done |].
  split; [(Z.div_mod_to_equations; lia) |].
  split; [(Z.div_mod_to_equations; lia) |]. right. right. right.
  split; [done |]. split; [done |]. (Z.div_mod_to_equations; lia).
Qed.

(** X22 on an item posted on 2026-11-01 at 00:00:00 UTC and shown 3 days,
    4 hours and 5 seconds later. *)
Lemma formatRelativeAge_truncates_witness :
  (exists n secs unit,
     formatRelativeAge (Some 1793491200%Z) 1793764805123 = pretty n +:+ unit /\
     (0 <= n <= 17280000000000)%Z /\
     (n * secs <= Z.max 0 (1793764805123 / 1000 - 1793491200) < (n + 1) * secs)%Z /\
     ((unit = "s ago" /\ secs = 1%Z /\ (n < 60)%Z) \/
      (unit = "m ago" /\ secs = 60%Z /\ (1 <= n < 60)%Z) \/
      (unit = "h ago" /\ secs = 3600%Z /\ (1 <= n < 24)%Z) \/
      (unit = "d ago" /\ secs = 86400%Z /\ (1 <= n)%Z))) /\
  formatRelativeAge None 1793764805123 = "unknown" /\
  formatRelativeAge (Some 0%Z) 1793764805123 = "unknown".
Proof.
  apply (formatRelativeAge_truncates 1793491200 1793764805123).
  - discriminate.
  - unfold MAX_TIME_VALUE. lia.
  - unfold MAX_TIME_VALUE. lia.
Defined.

(** X23: when every id of the list is answered with an item that is
    rendered in the section, the rank shown beside an item of the first
    page is the position (counted from 1) of its id in the id list: for the
    past feed the ranks start at 31. *)
Theorem first_page_rank_is_list_position (net : Upstream) (signal : AbortSignal)
    (section : FeedSection) (ids : list Z) :
  (forall id, id ∈ ids ->
     exists item, answer net signal id = Some item /\
                  shouldRenderInSection item section = true) ->
  exists page,
    result (fetchFeedPage net ids section (loadFeed_startIndex section) signal)
      = Resolved page /\
    forall index item,
      page_items page !! index = Some item ->
      1 <= StoryListItem_rank section index /\
      exists id,
        ids !! (StoryListItem_rank section index - 1) = Some id /\
        answer net signal id = Some item.
Proof.
  intros Hall.
  destruct (fetchFeedPage_allQualify net signal section ids
              (loadFeed_startIndex section) Hall) as (items & Hpage & Hitems).
  eexists. split; [exact Hpage |]. cbn [page_items].
  intros index item Hindex.
  assert (Hanswer : (answer net signal
            <$> slice ids (loadFeed_startIndex section)
                  (loadFeed_startIndex section + PAGE_SIZE)) !! index
          = Some (Some item)).
  { rewrite <- Hitems, list_lookup_fmap, Hindex. reflexivity. }
  apply list_lookup_fmap_Some in Hanswer as (id & Hanswer & Hid).
  unfold slice in Hid. apply lookup_take_Some in Hid as [Hid _].
  rewrite lookup_drop in Hid.
  split; [destruct section; cbn; lia |].
  exists id. split; [| done].
  rewrite <- Hid. f_equal.
  destruct section; cbn; unfold MAX_FRONT_PAGE_STORIES; lia.
Qed.

(** X23 on the past feed over the ids 100 to 149. *)
Lemma first_page_rank_is_list_position_witness :
  exists page,
    result (fetchFeedPage feedUpstream (Z.of_nat <$> seq 100 50) SPast
              (loadFeed_startIndex SPast) notAborted) = Resolved page /\
    forall index item,
      page_items page !! index = Some item ->
      1 <= StoryListItem_rank SPast index /\
      exists id,
        (Z.of_nat <$> seq 100 50) !! (StoryListItem_rank SPast index - 1) = Some id /\
        answer feedUpstream notAborted id = Some item.
Proof.
  apply first_page_rank_is_list_position.
  intros id _. eexists. split; reflexivity.
Defined.
